(** * AttestationSubsidy and the phone-number-privacy input validation

    A shallow embedding of

    - [AttestationSubsidy.sol] (Solidity 0.5): the owner-gated, reentrancy
      guarded batch "approve cUSD / transfer cUSD / request attestations",
      with its post-condition on the attestation request counter;
    - [input-validation.ts]: the boolean predicates over an untrusted
      request body.

    Solidity's [uint256] is a [Z] whose wrap-around is written out where the
    source computes ([requestsBefore + attestationsRequested], SafeMath's
    [a * b]).  A transaction is a function of the contract storage and of the
    state of the other contracts (the [World]); a [revert] discards every
    change, and the external calls that were attempted are kept in a log so
    that "no downstream call was made" can be stated. *)

From Stdlib Require Import ZArith List Ascii String Bool Lia.
Import ListNotations.
Open Scope Z_scope.

(** ** 256-bit unsigned arithmetic *)

Module UInt256.

Definition modulus : Z := 2 ^ 256.

Definition max_value : Z := modulus - 1.

(** The values a [uint256] holds. *)
Definition in_range (x : Z) : Prop := 0 <= x < modulus.

(** A 32-byte word of return data read as a [uint256]. *)
Definition of_word (x : Z) : Z := x mod modulus.

(** [a + b] as the EVM computes it (Solidity 0.5: unchecked). *)
Definition add (a b : Z) : Z := (a + b) mod modulus.

(** [a - b] as the EVM computes it. *)
Definition sub (a b : Z) : Z := (a - b) mod modulus.

(** [a * b] as the EVM computes it. *)
Definition mul (a b : Z) : Z := (a * b) mod modulus.

End UInt256.

(** ** Data *)

Definition address := Z.
Definition bytes32 := Z.

(** [abi.encodeWithSignature(sig, args...)], kept symbolic. *)
Inductive CallData :=
| EncodeWithSignature (sig : string) (args : list Z).

(** The registry identifiers behind [getStableToken()] and
    [getAttestations()]. *)
Inductive RegistryId := STABLE_TOKEN_REGISTRY_ID | ATTESTATIONS_REGISTRY_ID.

(** The calls the contract makes to other contracts. *)
Inductive Call :=
| CallGetAddressForOrDie (registry : address) (id : RegistryId)
| CallGetAttestationStats (attestations : address) (identifier : bytes32) (account : address)
| CallGetAttestationRequestFee (attestations token : address)
| CallExecuteMetaTransaction (wallet destination : address) (value : Z)
    (data : CallData) (v : Z) (r s : bytes32)
| CallTransfer (token recipient : address) (value : Z).

(** Why a transaction reverted.  Each constructor is one [require] of the
    contract or of a contract it inherits from, named as the specification
    names the failure; [revert_reason] gives the message of the source. *)
Inductive Error :=
| Unauthorized
| InvalidLimit
| MalformedRequest
| LimitExceeded
| ReentrantCall
| FeeOverflow
| InvariantViolation
| AlreadyInitialized
| ZeroAddress
| NullRegistry
| IndexOutOfBounds
| DownstreamFailure (c : Call).

Definition revert_reason (e : Error) : string :=
  match e with
  | Unauthorized => "Ownable: caller is not the owner"
  | InvalidLimit => "maxSubsidisedAttestations has to be greater than 0"
  | MalformedRequest => "two signatures are required (approve,request)"
  | LimitExceeded => "too many attestations requested"
  | ReentrantCall => "reentrant call"
  | FeeOverflow => "SafeMath: multiplication overflow"
  | InvariantViolation => "meta-transaction didn not result in attestations being requested"
  | AlreadyInitialized => "contract already initialized"
  | ZeroAddress => "Ownable: new owner is the zero address"
  | NullRegistry => "Cannot register the null address"
  | IndexOutOfBounds => "invalid opcode"
  | DownstreamFailure _ => "external call reverted"
  end%string.

Inductive Event :=
| AttestationSubsidised (account : address) (value : Z)
| MaxSubsidisedAttestationsSet (value : Z)
| OwnershipTransferred (previousOwner newOwner : address)
| RegistrySet (registryAddress : address).

(** The storage of the contract, with the events it has emitted. *)
Record State := mkState {
  owner : address;
  initialized : bool;
  registry : address;
  locked : bool;
  maxSubsidisedAttestations : Z;
  events : list Event
}.

Definition set_owner (a : address) (st : State) : State :=
  mkState a (initialized st) (registry st) (locked st)
          (maxSubsidisedAttestations st) (events st).

Definition set_initialized (b : bool) (st : State) : State :=
  mkState (owner st) b (registry st) (locked st)
          (maxSubsidisedAttestations st) (events st).

Definition set_registry (a : address) (st : State) : State :=
  mkState (owner st) (initialized st) a (locked st)
          (maxSubsidisedAttestations st) (events st).

Definition set_locked (b : bool) (st : State) : State :=
  mkState (owner st) (initialized st) (registry st) b
          (maxSubsidisedAttestations st) (events st).

Definition set_maxSubsidisedAttestations (n : Z) (st : State) : State :=
  mkState (owner st) (initialized st) (registry st) (locked st) n (events st).

Definition add_event (e : Event) (st : State) : State :=
  mkState (owner st) (initialized st) (registry st) (locked st)
          (maxSubsidisedAttestations st) (events st ++ [e]).

(** The other contracts, as the interfaces the source imports declare them
    ([IRegistry], [IAttestations], [IERC20], [IMetaTransactionWallet]).  The
    first argument is the callee; [None] is a revert of the callee.  View
    functions read the world, the two others change it. *)
Record Env (World : Type) := mkEnv {
  getAddressForOrDie : address -> RegistryId -> World -> option address;
  getAttestationStats : address -> bytes32 -> address -> World -> option (Z * Z);
  getAttestationRequestFee : address -> address -> World -> option Z;
  executeMetaTransaction :
    address -> address -> Z -> CallData -> Z -> bytes32 -> bytes32 ->
    World -> option World;
  transfer : address -> address -> Z -> World -> option (bool * World)
}.

Arguments mkEnv {World}.
Arguments getAddressForOrDie {World}.
Arguments getAttestationStats {World}.
Arguments getAttestationRequestFee {World}.
Arguments executeMetaTransaction {World}.
Arguments transfer {World}.

(** ** SafeMath *)

(** Modelled from the spec: [SafeMath.mul] of openzeppelin-solidity, which is
    not among the sources; the specification asks for an overflow-checked
    multiplication that fails with [FeeOverflow] rather than wrapping.  The
    body is the library's: [if (a == 0) return 0; c = a * b;
    require(c / a == b); return c]. *)
Definition SafeMath_mul (a b : Z) : Error + Z :=
  if a =? 0 then inr 0
  else
    let c := UInt256.mul a b in
    if c / a =? b then inr c else inl FeeOverflow.

(** ** Transactions *)

Section Contract.

Variable World : Type.
Variable env : Env World.

(** The result of running a piece of the contract: a value with the new
    storage and world, or a revert. *)
Inductive Res (A : Type) :=
| Ok (a : A) (st : State) (w : World)
| Revert (e : Error).

Arguments Ok {A}.
Arguments Revert {A}.

(** Contract code: reads the storage and the world, logs the external calls
    it attempts, and returns or reverts. *)
Definition M (A : Type) : Type := State -> World -> list Call * Res A.

Definition ret {A} (a : A) : M A := fun st w => ([], Ok a st w).

Definition bind {A B} (m : M A) (k : A -> M B) : M B := fun st w =>
  match m st w with
  | (l1, Ok a st1 w1) => let (l2, r) := k a st1 w1 in (l1 ++ l2, r)
  | (l1, Revert e) => (l1, Revert e)
  end.

Notation "x <- m ;; k" := (bind m (fun x => k))
  (at level 61, m at next level, right associativity).
Notation "m ;; k" := (bind m (fun _ => k))
  (at level 61, right associativity).

Definition revert {A} (e : Error) : M A := fun _ _ => ([], Revert e).

Definition require (b : bool) (e : Error) : M unit :=
  if b then ret tt else revert e.

Definition gets {A} (f : State -> A) : M A := fun st w => ([], Ok (f st) st w).

Definition modify (f : State -> State) : M unit := fun st w => ([], Ok tt (f st) w).

Definition emit (e : Event) : M unit := modify (add_event e).

Definition lift_sum {A} (r : Error + A) : M A :=
  match r with inr a => ret a | inl e => revert e end.

(** A call to a [view] function of another contract. *)
Definition staticcall {A} (c : Call) (f : World -> option A) : M A := fun st w =>
  match f w with
  | Some a => ([c], Ok a st w)
  | None => ([c], Revert (DownstreamFailure c))
  end.

(** A call that may change the other contracts.  The callee acts on the
    world of the other contracts and is not handed this contract's storage:
    a callee that calls back into this contract while the call is running is
    outside this model. *)
Definition extcall {A} (c : Call) (f : World -> option (A * World)) : M A := fun st w =>
  match f w with
  | Some (a, w') => ([c], Ok a st w')
  | None => ([c], Revert (DownstreamFailure c))
  end.

(** [xs[i]]: an index out of range reverts. *)
Definition index {A} (xs : list A) (i : nat) : M A :=
  match nth_error xs i with
  | Some x => ret x
  | None => revert IndexOutOfBounds
  end.

(** *** Inherited modifiers and helpers *)

(** Modelled from the spec: the [onlyOwner] modifier of [Ownable]
    (openzeppelin-solidity, not among the sources): callable only by the
    administrator identity, fails with [Unauthorized] otherwise. *)
Definition onlyOwner {A} (sender : address) (body : M A) : M A :=
  o <- gets owner ;;
  require (sender =? o) Unauthorized ;;
  body.

(** Modelled from the spec: [Ownable._transferOwnership] (not among the
    sources): the caller of [initialize] becomes the single administrator
    identity. *)
Definition _transferOwnership (newOwner : address) : M unit :=
  require (negb (newOwner =? 0)) ZeroAddress ;;
  o <- gets owner ;;
  emit (OwnershipTransferred o newOwner) ;;
  modify (set_owner newOwner).

(** Modelled from the spec: the [initializer] modifier of [Initializable]
    (common/Initializable.sol, not among the sources): the configuration is
    created once, at system initialization. *)
Definition initializer {A} (body : M A) : M A :=
  i <- gets initialized ;;
  require (negb i) AlreadyInitialized ;;
  modify (set_initialized true) ;;
  body.

(** Modelled from the spec: [UsingRegistry.setRegistry]
    (common/UsingRegistry.sol, not among the sources): owner only, rejects
    the null address, stores the registry through which the collaborators
    are found. *)
Definition setRegistry (sender registryAddress : address) : M unit :=
  onlyOwner sender (
    require (negb (registryAddress =? 0)) NullRegistry ;;
    modify (set_registry registryAddress) ;;
    emit (RegistrySet registryAddress)).

(** Modelled from the spec: [UsingRegistry.getStableToken] (not among the
    sources): a lookup in the registry contract, which reverts when nothing
    is registered. *)
Definition getStableToken : M address :=
  reg <- gets registry ;;
  staticcall (CallGetAddressForOrDie reg STABLE_TOKEN_REGISTRY_ID)
             (getAddressForOrDie env reg STABLE_TOKEN_REGISTRY_ID).

(** Modelled from the spec: [UsingRegistry.getAttestations] (not among the
    sources): the metering service, found through the registry. *)
Definition getAttestations : M address :=
  reg <- gets registry ;;
  staticcall (CallGetAddressForOrDie reg ATTESTATIONS_REGISTRY_ID)
             (getAddressForOrDie env reg ATTESTATIONS_REGISTRY_ID).

(** Modelled from the spec: the [nonReentrant] modifier of [ReentrancyGuard]
    (common/libraries/ReentrancyGuard.sol, not among the sources): a binary
    lock scoped to the lifetime of one call; [enter] fails with
    [ReentrantCall] if the lock is already held, [exit] releases it.  What
    happens to a call that finds the lock held is therefore the
    specification's word and not the code's. *)
Definition enter : M unit :=
  held <- gets locked ;;
  require (negb held) ReentrantCall ;;
  modify (set_locked true).

(** Modelled from the spec: [exit] of the same lock: it releases. *)
Definition exit : M unit := modify (set_locked false).

(** Modelled from the spec: [nonReentrant], the scoped acquisition: [enter],
    the body, [exit].  A failure of the body is a revert, which undoes the
    acquisition with everything else. *)
Definition nonReentrant {A} (body : M A) : M A :=
  enter ;;
  x <- body ;;
  exit ;;
  ret x.

(** *** The contract *)

(** [setMaxSubsidisedAttestations(uint256) public onlyOwner]. *)
Definition setMaxSubsidisedAttestations
  (sender : address) (_maxSubsidisedAttestations : Z) : M unit :=
  onlyOwner sender (
    require (0 <? _maxSubsidisedAttestations) InvalidLimit ;;
    modify (set_maxSubsidisedAttestations _maxSubsidisedAttestations) ;;
    emit (MaxSubsidisedAttestationsSet _maxSubsidisedAttestations)).

(** [initialize(address, uint256) external initializer]. *)
Definition initialize
  (sender registryAddress : address) (_maxSubsidisedAttestations : Z) : M unit :=
  initializer (
    _transferOwnership sender ;;
    setRegistry sender registryAddress ;;
    setMaxSubsidisedAttestations sender _maxSubsidisedAttestations).

(** [getAttestationRequests]: the second component of
    [getAttestations().getAttestationStats(identifier, account)]. *)
Definition getAttestationRequests (identifier : bytes32) (account : address) : M Z :=
  att <- getAttestations ;;
  stats <- staticcall (CallGetAttestationStats att identifier account)
                      (getAttestationStats env att identifier account) ;;
  ret (UInt256.of_word (snd stats)).

(** [calculateTotalFee]:
    [getAttestations().getAttestationRequestFee(address(getStableToken()))
       .mul(attestationsRequested)]. *)
Definition calculateTotalFee (attestationsRequested : Z) : M Z :=
  att <- getAttestations ;;
  token <- getStableToken ;;
  fee <- staticcall (CallGetAttestationRequestFee att token)
                    (getAttestationRequestFee env att token) ;;
  lift_sum (SafeMath_mul (UInt256.of_word fee) attestationsRequested).

(** [metaApproveCUSD]. *)
Definition metaApproveCUSD
  (metaWallet : address) (totalFee : Z) (v : Z) (r s : bytes32) : M unit :=
  att <- getAttestations ;;
  let callData := EncodeWithSignature "approve(address,value)" [att; totalFee] in
  token <- getStableToken ;;
  extcall (CallExecuteMetaTransaction metaWallet token 0 callData v r s)
          (fun w => option_map (fun w' => (tt, w'))
                      (executeMetaTransaction env metaWallet token 0 callData v r s w)).

(** [metaRequestAttestations]. *)
Definition metaRequestAttestations
  (metaWallet : address) (identifier : bytes32) (attestationsRequested : Z)
  (v : Z) (r s : bytes32) : M unit :=
  token <- getStableToken ;;
  let callData :=
    EncodeWithSignature "request(bytes32,uint256,address)"
                        [identifier; attestationsRequested; token] in
  att <- getAttestations ;;
  extcall (CallExecuteMetaTransaction metaWallet att 0 callData v r s)
          (fun w => option_map (fun w' => (tt, w'))
                      (executeMetaTransaction env metaWallet att 0 callData v r s w)).

(** [_requestAttestationsWithSubsidy]: fee, approve, transfer, request.  The
    [bool] that [cUSD.transfer] returns is dropped, as in the source. *)
Definition _requestAttestationsWithSubsidy
  (beneficiaryMetaWallet : address) (identifier : bytes32)
  (attestationsRequested : Z) (v : list Z) (r s : list bytes32) : M Z :=
  totalFee <- calculateTotalFee attestationsRequested ;;
  cUSD <- getStableToken ;;
  v0 <- index v 0 ;; r0 <- index r 0 ;; s0 <- index s 0 ;;
  metaApproveCUSD beneficiaryMetaWallet totalFee v0 r0 s0 ;;
  _ <- extcall (CallTransfer cUSD beneficiaryMetaWallet totalFee)
               (transfer env cUSD beneficiaryMetaWallet totalFee) ;;
  v1 <- index v 1 ;; r1 <- index r 1 ;; s1 <- index s 1 ;;
  metaRequestAttestations beneficiaryMetaWallet identifier attestationsRequested v1 r1 s1 ;;
  ret totalFee.

(** The limit check of line 90,
    [attestationsRequested < maxSubsidisedAttestations]. *)
Definition checkWithinLimit (attestationsRequested : Z) (st : State) : bool :=
  attestationsRequested <? maxSubsidisedAttestations st.

(** The body of [requestAttestationsWithSubsidy], inside its modifiers. *)
Definition requestAttestationsWithSubsidy_body
  (beneficiaryMetaWallet : address) (identifier : bytes32)
  (attestationsRequested : Z) (v : list Z) (r s : list bytes32) : M unit :=
  require (Nat.eqb (List.length v) 2) MalformedRequest ;;
  require (Nat.eqb (List.length r) 2) MalformedRequest ;;
  require (Nat.eqb (List.length s) 2) MalformedRequest ;;
  within <- gets (checkWithinLimit attestationsRequested) ;;
  require within LimitExceeded ;;
  requestsBefore <- getAttestationRequests identifier beneficiaryMetaWallet ;;
  totalFee <- _requestAttestationsWithSubsidy beneficiaryMetaWallet identifier
                attestationsRequested v r s ;;
  requestsAfter <- getAttestationRequests identifier beneficiaryMetaWallet ;;
  require (UInt256.add requestsBefore attestationsRequested =? requestsAfter)
          InvariantViolation ;;
  emit (AttestationSubsidised beneficiaryMetaWallet totalFee).

(** [requestAttestationsWithSubsidy(...) external onlyOwner nonReentrant]. *)
Definition requestAttestationsWithSubsidy
  (sender beneficiaryMetaWallet : address) (identifier : bytes32)
  (attestationsRequested : Z) (v : list Z) (r s : list bytes32) : M unit :=
  onlyOwner sender (nonReentrant (
    requestAttestationsWithSubsidy_body beneficiaryMetaWallet identifier
      attestationsRequested v r s)).

(** *** A transaction *)

Inductive Status := Success | Failed (e : Error).

(** What a caller and an observer see of one call: whether it succeeded,
    the storage and the world it leaves, and the external calls that were
    attempted.  A revert leaves storage, events and world as they were. *)
Record Outcome := mkOutcome {
  status : Status;
  state_after : State;
  world_after : World;
  calls : list Call
}.

Definition transact (m : M unit) (st : State) (w : World) : Outcome :=
  match m st w with
  | (l, Ok _ st' w') => mkOutcome Success st' w' l
  | (l, Revert e) => mkOutcome (Failed e) st w l
  end.

End Contract.

Arguments Ok {World A}.
Arguments Revert {World A}.
Arguments M World A : clear implicits.
Arguments ret {World A}.
Arguments bind {World A B}.
Arguments transact {World}.
Arguments revert {World A}.
Arguments require {World}.
Arguments gets {World A}.
Arguments modify {World}.
Arguments emit {World}.
Arguments lift_sum {World A}.
Arguments staticcall {World A}.
Arguments extcall {World A}.
Arguments index {World A}.
Arguments setRegistry {World}.
Arguments initializer {World A}.
Arguments _transferOwnership {World}.
Arguments enter {World}.
Arguments exit {World}.
Arguments status {World}.
Arguments state_after {World}.
Arguments world_after {World}.
Arguments calls {World}.
Arguments mkOutcome {World}.
Arguments setMaxSubsidisedAttestations {World}.
Arguments initialize {World}.
Arguments requestAttestationsWithSubsidy {World}.
Arguments requestAttestationsWithSubsidy_body {World}.
Arguments _requestAttestationsWithSubsidy {World}.
Arguments calculateTotalFee {World}.
Arguments getAttestationRequests {World}.
Arguments getAttestations {World}.
Arguments getStableToken {World}.
Arguments metaApproveCUSD {World}.
Arguments metaRequestAttestations {World}.
Arguments nonReentrant {World A}.
Arguments onlyOwner {World A}.

(** Code that leaves the storage alone, and code that leaves storage and
    world alone (a [view]). *)
Definition keeps_state {World A} (m : M World A) : Prop :=
  forall st w l a st' w', m st w = (l, Ok a st' w') -> st' = st.

Definition is_view {World A} (m : M World A) : Prop :=
  forall st w l a st' w', m st w = (l, Ok a st' w') -> st' = st /\ w' = w.

(** Two [v], two [r] and two [s] components: what lines 87 to 89 require. *)
Definition two_signatures (v : list Z) (r s : list bytes32) : bool :=
  Nat.eqb (List.length v) 2 && Nat.eqb (List.length r) 2 && Nat.eqb (List.length s) 2.

(** The counter read before and after the chain: what
    [getAttestationRequests] returns in a given world. *)
Definition usage {World} (env : Env World) (st : State)
  (identifier : bytes32) (account : address) (w : World) : option Z :=
  match getAttestationRequests env identifier account st w with
  | (_, Ok n _ _) => Some n
  | (_, Revert _) => None
  end.

(** The per-unit price [calculateTotalFee] multiplies: the fee the
    attestations contract quotes for the stable token. *)
Definition unitPrice {World} (env : Env World) (st : State) (w : World) : option Z :=
  match getAddressForOrDie env (registry st) ATTESTATIONS_REGISTRY_ID w,
        getAddressForOrDie env (registry st) STABLE_TOKEN_REGISTRY_ID w with
  | Some att, Some token =>
      option_map UInt256.of_word (getAttestationRequestFee env att token w)
  | _, _ => None
  end.

(** The entry points of the contract, as one call. *)
Inductive Entry :=
| EInitialize (registryAddress : address) (_maxSubsidisedAttestations : Z)
| ESetMaxSubsidisedAttestations (_maxSubsidisedAttestations : Z)
| ERequestAttestationsWithSubsidy (beneficiaryMetaWallet : address)
    (identifier : bytes32) (attestationsRequested : Z)
    (v : list Z) (r s : list bytes32).

Definition dispatch {World} (env : Env World) (sender : address) (e : Entry) : M World unit :=
  match e with
  | EInitialize reg n => initialize sender reg n
  | ESetMaxSubsidisedAttestations n => setMaxSubsidisedAttestations sender n
  | ERequestAttestationsWithSubsidy wallet identifier n v r s =>
      requestAttestationsWithSubsidy env sender wallet identifier n v r s
  end.

(** The storage of a freshly created contract: nothing initialised, every
    slot zero. *)
Definition deployed (st : State) : Prop :=
  initialized st = false /\ locked st = false.

(** The states the contract is in from its initialization on: the state a
    successful [initialize] leaves, and every state a later call leaves,
    whoever calls and whatever the other contracts do. *)
Inductive reachable {World} (env : Env World) : State -> Prop :=
| reachable_init st0 (w : World) sender reg n :
    deployed st0 ->
    status (transact (initialize sender reg n) st0 w) = Success ->
    reachable env (state_after (transact (initialize sender reg n) st0 w))
| reachable_call st (w : World) sender e :
    reachable env st ->
    reachable env (state_after (transact (dispatch env sender e) st w)).

(** ** A small world to run the contract in *)

Module Demo.

(** One counter of requested attestations, one fee, and whether the
    attestations contract counts the requests it receives. *)
Record World := mkWorld {
  requests : Z;
  fee : Z;
  counts : bool
}.

Definition stableToken : address := 100.
Definition attestations : address := 200.

Definition env : Env World :=
  mkEnv
    (fun _ id _ =>
       Some (match id with
             | STABLE_TOKEN_REGISTRY_ID => stableToken
             | ATTESTATIONS_REGISTRY_ID => attestations
             end))
    (fun _ _ _ w => Some (0, requests w))
    (fun _ _ w => Some (fee w))
    (fun _ dest _ data _ _ _ w =>
       match data with
       | EncodeWithSignature sig [_; n; _] =>
           if (dest =? attestations) && String.eqb sig "request(bytes32,uint256,address)" && counts w
           then Some (mkWorld (requests w + n) (fee w) (counts w))
           else Some w
       | _ => Some w
       end)
    (fun _ _ _ w => Some (true, w)).

Definition admin : address := 1.
Definition stranger : address := 2.
Definition wallet : address := 3.

(** Limit 10, owned by [admin], no call in flight. *)
Definition idle : State := mkState admin true 50 false 10 [].


Definition fresh : State := mkState 0 false 0 false 0 [].

Definition honest : World := mkWorld 7 2 true.
Definition silent : World := mkWorld 7 2 false.

(** A request: an identifier and two signatures. *)
Definition identifier : bytes32 := 9.
Definition sig_v : list Z := [27; 28].
Definition sig_r : list bytes32 := [11; 12].
Definition sig_s : list bytes32 := [21; 22].

(** [requestAttestationsWithSubsidy] for [n] units, called by [sender]. *)
Definition request (sender : address) (n : Z) : M World unit :=
  requestAttestationsWithSubsidy env sender wallet identifier n sig_v sig_r sig_s.

(** The same with a single [v]. *)
Definition malformed_request (sender : address) (n : Z) : M World unit :=
  requestAttestationsWithSubsidy env sender wallet identifier n [27] sig_r sig_s.

End Demo.

(** ** Request validation ([input-validation.ts]) *)

Module InputValidation.

(** A JavaScript number, as far as the predicates look at it: [NaN] or an
    integral value (milliseconds since the epoch). *)
Inductive JsNumber :=
| NaN
| Num (z : Z).

#[local] Unset Elimination Schemes.

Inductive JsValue :=
| JsUndefined
| JsNull
| JsBool (b : bool)
| JsNum (n : JsNumber)
| JsString (s : string)
| JsArray (items : list JsValue)
| JsObject (fields : list (string * JsValue)).

#[local] Set Elimination Schemes.

(** The request body: a parsed JSON object. *)
Definition RequestBody := list (string * JsValue).

(** [requestBody.name]: [undefined] when the body has no such field. *)
Fixpoint get_field (name : string) (body : RequestBody) : JsValue :=
  match body with
  | [] => JsUndefined
  | (k, x) :: rest => if String.eqb k name then x else get_field name rest
  end.

(** JavaScript's [ToBoolean]. *)
Definition truthy (x : JsValue) : bool :=
  match x with
  | JsUndefined | JsNull => false
  | JsBool b => b
  | JsNum NaN => false
  | JsNum (Num z) => negb (z =? 0)
  | JsString s => negb (String.eqb s "")
  | JsArray _ | JsObject _ => true
  end.

Definition is_number (x : JsValue) : bool :=
  match x with JsNum _ => true | _ => false end.

(** [x > bound] for a value known to be a number; a comparison with [NaN]
    is false. *)
Definition number_gt (x : JsValue) (bound : Z) : bool :=
  match x with
  | JsNum (Num z) => bound <? z
  | _ => false
  end.

(** [hasValidTimestamp]; [now] is [Date.now()] and
    [REQUEST_EXPIRY_WINDOW_MS] the constant of [./constants]. *)
Definition hasValidTimestamp
  (REQUEST_EXPIRY_WINDOW_MS now : Z) (requestBody : RequestBody) : bool :=
  let timestamp := get_field "timestamp" requestBody in
  negb (truthy timestamp)
  || (is_number timestamp && number_gt timestamp (now - REQUEST_EXPIRY_WINDOW_MS)).

(** Modelled from the spec: [trimLeading0x] of [@celo/utils] (not among the
    sources): the value after trimming a leading [0x]. *)
Definition trimLeading0x (input : string) : string :=
  if String.prefix "0x" input then String.substring 2 (String.length input - 2) input
  else input.

(** Node's [Buffer.byteLength(s, 'hex')]: half the length of the string,
    rounded down ([s.length >>> 1]); the characters are not looked at. *)
Definition Buffer_byteLength_hex (s : string) : nat :=
  Nat.div2 (String.length s).

(** [isByte32]. *)
Definition isByte32 (hashedData : string) : bool :=
  Nat.eqb (Buffer_byteLength_hex (trimLeading0x hashedData)) 32.

(** [isByte32] applied to an untyped value: a value that is no string has
    no [startsWith], and the call throws ([None]). *)
Definition isByte32_any (x : JsValue) : option bool :=
  match x with
  | JsString s => Some (isByte32 s)
  | _ => None
  end.

(** [hasValidPhoneNumberHash]: [a && b] is [a] when [a] is falsy. *)
Definition hasValidPhoneNumberHash (requestBody : RequestBody) : option JsValue :=
  let h := get_field "hashedPhoneNumber" requestBody in
  if truthy h then option_map JsBool (isByte32_any h) else Some h.

(** [phoneNumberHashIsValidIfExists]. *)
Definition phoneNumberHashIsValidIfExists (requestBody : RequestBody) : option bool :=
  let h := get_field "hashedPhoneNumber" requestBody in
  if negb (truthy h) then Some true else isByte32_any h.

(** A timestamp the expiry window has left behind. *)
Definition stale (REQUEST_EXPIRY_WINDOW_MS now t : Z) : Prop :=
  t <= now - REQUEST_EXPIRY_WINDOW_MS.

(** The characters of a hexadecimal string. *)
Definition is_hex_digit (c : ascii) : bool :=
  let n := nat_of_ascii c in
  (Nat.leb 48 n && Nat.leb n 57) || (Nat.leb 97 n && Nat.leb n 102)
  || (Nat.leb 65 n && Nat.leb n 70).

Fixpoint all_hex (s : string) : bool :=
  match s with
  | EmptyString => true
  | String c rest => is_hex_digit c && all_hex rest
  end.

(** A hash of 65 hexadecimal characters after its [0x]. *)
Definition odd_hash : string :=
  "0x0123456789abcdef0123456789abcdef0123456789abcdef0123456789abcdef0".

End InputValidation.

(** ** The shape of a call's log and of its failures *)

(** The external calls that can change another contract. *)
Definition is_mutating (c : Call) : bool :=
  match c with
  | CallExecuteMetaTransaction _ _ _ _ _ _ _ | CallTransfer _ _ _ => true
  | _ => false
  end.

(** The call of line 173, as [metaApproveCUSD] sends it for the first
    signature: [executeMetaTransaction] on the meta-wallet, to [token], with
    the encoded approval of [fee] for [att]. *)
Definition approve_call (wallet token att fee : Z)
  (v : list Z) (r s : list bytes32) : Call :=
  CallExecuteMetaTransaction wallet token 0
    (EncodeWithSignature "approve(address,value)" [att; fee])
    (nth 0 v 0) (nth 0 r 0) (nth 0 s 0).

(** The call of line 199, as [metaRequestAttestations] sends it for the
    second signature: [executeMetaTransaction] on the meta-wallet, to [att],
    with the encoded request of [n] attestations paid in [token]. *)
Definition request_call (wallet att token : Z) (identifier : bytes32) (n : Z)
  (v : list Z) (r s : list bytes32) : Call :=
  CallExecuteMetaTransaction wallet att 0
    (EncodeWithSignature "request(bytes32,uint256,address)" [identifier; n; token])
    (nth 1 v 0) (nth 1 r 0) (nth 1 s 0).

(** What a call does to the world of the other contracts: [None] when the
    callee reverts; a view leaves the world as it is. *)
Definition perform {World} (env : Env World) (c : Call) (w : World) : option World :=
  match c with
  | CallGetAddressForOrDie reg id =>
      option_map (fun _ => w) (getAddressForOrDie env reg id w)
  | CallGetAttestationStats att identifier account =>
      option_map (fun _ => w) (getAttestationStats env att identifier account w)
  | CallGetAttestationRequestFee att token =>
      option_map (fun _ => w) (getAttestationRequestFee env att token w)
  | CallExecuteMetaTransaction wallet destination value data v r s =>
      executeMetaTransaction env wallet destination value data v r s w
  | CallTransfer token recipient value =>
      option_map snd (transfer env token recipient value w)
  end.

(** Whether a run ended in a revert. *)
Definition reverted {World A} (res : Res World A) : Prop :=
  match res with Revert _ => True | Ok _ _ _ => False end.

(** The same contracts, with a stable token whose [transfer] returns [b]
    whenever it returns. *)
Definition with_transfer_result {World} (b : bool) (env : Env World) : Env World :=
  mkEnv (getAddressForOrDie env) (getAttestationStats env)
        (getAttestationRequestFee env) (executeMetaTransaction env)
        (fun token recipient value w =>
           option_map (fun p => (b, snd p)) (transfer env token recipient value w)).

(** What each failure of [requestAttestationsWithSubsidy] says about the
    call: [log] is the list of the external calls it attempted.  Of the error
    of the reentrancy guard it says only what line 86 decides, that the
    owner gate was passed; when the guard raises it is the guard's own
    business (ReentrancyGuard.sol). *)
Definition failure_explained {World} (env : Env World) (sender : address)
  (n : Z) (v : list Z) (r s : list bytes32) (st : State) (w : World)
  (log : list Call) (e : Error) : Prop :=
  match e with
  | Unauthorized => sender <> owner st /\ log = []
  | ReentrantCall => sender = owner st
  | MalformedRequest => two_signatures v r s = false /\ log = []
  | LimitExceeded => maxSubsidisedAttestations st <= n /\ log = []
  | FeeOverflow =>
      filter is_mutating log = [] /\
      exists price, unitPrice env st w = Some price /\ UInt256.modulus <= price * n
  | InvariantViolation => List.length (filter is_mutating log) = 3%nat
  | DownstreamFailure c => exists l, log = l ++ [c]
  | InvalidLimit | AlreadyInitialized | ZeroAddress | NullRegistry
  | IndexOutOfBounds => False
  end.

(** ** The other request predicates ([input-validation.ts]) *)

Module RequestParams.

Import InputValidation.

(** [Array.isArray]. *)
Definition isArray (x : JsValue) : bool :=
  match x with JsArray _ => true | _ => false end.

(** [hasValidContractPhoneNumbersParam]: [a && b] is [a] when [a] is
    falsy. *)
Definition hasValidContractPhoneNumbersParam (requestBody : RequestBody) : JsValue :=
  let contactPhoneNumbers := get_field "contactPhoneNumbers" requestBody in
  if truthy contactPhoneNumbers then JsBool (isArray contactPhoneNumbers)
  else contactPhoneNumbers.

End RequestParams.

(** ** QR code scanning ([qrcode/utils.ts]) *)

Module QR.

(** [secureSendTxData.recipient], as far as the file reads it: its kind and
    its optional phone number. *)
Record Recipient := mkRecipient {
  kind : string;
  e164PhoneNumber : option string
}.

(** [TransactionDataInput]: the recipient, and the other fields, which the
    file passes on unread. *)
Record TransactionDataInput := mkTransactionData {
  recipient : Recipient;
  otherFields : string
}.

(** [E164NumberToAddressType]: the arrays of addresses, by phone number.  A
    number without a binding reads as [undefined]. *)
Definition E164NumberToAddress := list (string * list string).

(** [e164NumberToAddress[e164PhoneNumber]]. *)
Fixpoint lookup (e164 : string) (book : E164NumberToAddress) : option (list string) :=
  match book with
  | [] => None
  | (k, addresses) :: rest =>
      if String.eqb k e164 then Some addresses else lookup e164 rest
  end.

(** The array bound to [e164] after a [push]: the map holds the array by
    reference, so the map sees the change. *)
Fixpoint store (e164 : string) (addresses : list string)
  (book : E164NumberToAddress) : E164NumberToAddress :=
  match book with
  | [] => []
  | (k, old) :: rest =>
      if String.eqb k e164 then (k, addresses) :: rest
      else (k, old) :: store e164 addresses rest
  end.

(** [xs.includes(x)] on strings. *)
Definition includes (x : string) (xs : list string) : bool :=
  existsb (String.eqb x) xs.

(** A string, or [undefined], as a condition. *)
Definition present (x : option string) : bool :=
  match x with
  | Some s => negb (String.eqb s "")
  | None => false
  end.

Inductive SendEvent := send_secure_incorrect | send_secure_complete.

Inductive Action :=
| showMessage (message : string)
| validateRecipientAddressSuccess (e164PhoneNumber address : string).

(** [parsed]: the fields of a decoded QR code. *)
Record QrData := mkQrData {
  qr_address : string;
  qr_e164PhoneNumber : option string;
  qr_displayName : option string;
  qr_currencyCode : option string;
  qr_amount : option string
}.

(** What [getRecipientFromAddress] finds in the cache. *)
Record CachedRecipient := mkCached {
  phoneNumberLabel : option string;
  thumbnailPath : option string;
  contactId : option string
}.

(** [RecipientWithQrCode], of kind [RecipientKind.QrCode]. *)
Record RecipientWithQrCode := mkRecipientWithQrCode {
  r_address : string;
  r_displayId : option string;
  r_displayName : string;
  r_phoneNumberLabel : option string;
  r_thumbnailPath : option string;
  r_contactId : option string
}.

Inductive Screen := PaymentRequestConfirmation | SendConfirmation | SendAmount.

Inductive Params :=
| ConfirmationParams (transactionData : TransactionDataInput) (addressJustValidated : bool)
| SendAmountParams (recipient : RecipientWithQrCode) (isFromScan : bool)
    (isOutgoingPaymentRequest : bool) (currencyCode amount : option string).

(** What a saga does besides returning: analytics, dispatched actions,
    warnings and navigation, in order. *)
Inductive Effect :=
| Track (event : SendEvent) (confirmByScan : bool) (error : option string)
| Put (action : Action)
| LoggerWarn (tag message : string)
| Replace (screen : Screen) (params : Params).

Inductive Completion (A : Type) :=
| Returned (a : A)
| Thrown (message : string).

Arguments Returned {A}.
Arguments Thrown {A}.

(** A run of a saga: how it ended, what it did, and the address map it
    leaves. *)
Record Run (A : Type) := mkRun {
  completion : Completion A;
  effects : list Effect;
  book_after : E164NumberToAddress
}.

Arguments mkRun {A}.
Arguments completion {A}.
Arguments effects {A}.
Arguments book_after {A}.

Definition TAG : string := "QR/utils".

Section Sagas.

(** [String.prototype.toLowerCase], and the message
    [ErrorMessages.QR_FAILED_INVALID_RECIPIENT]. *)
Variable toLowerCase : string -> string.
Variable QR_FAILED_INVALID_RECIPIENT : string.

(** [handleSecureSend]. *)
Definition handleSecureSend (address : string) (e164NumberToAddress : E164NumberToAddress)
  (secureSendTxData : TransactionDataInput) (requesterAddress : option string)
  : Run bool :=
  match e164PhoneNumber (recipient secureSendTxData) with
  | None =>
      mkRun (Thrown ("Invalid recipient type for Secure Send: "
                     ++ kind (recipient secureSendTxData)))
            [] e164NumberToAddress
  | Some e164 =>
      if String.eqb e164 "" then
        mkRun (Thrown ("Invalid recipient type for Secure Send: "
                       ++ kind (recipient secureSendTxData)))
              [] e164NumberToAddress
      else
        let userScannedAddress := toLowerCase address in
        match lookup e164 e164NumberToAddress with
        | None =>
            mkRun (Thrown "No addresses associated with recipient's phone number")
                  [] e164NumberToAddress
        | Some possibleReceivingAddresses =>
            let push :=
              match requesterAddress with
              | Some requester =>
                  if present requesterAddress
                     && negb (includes requester possibleReceivingAddresses)
                  then Some requester else None
              | None => None
              end in
            let pushed :=
              match push with
              | Some requester => possibleReceivingAddresses ++ [requester]
              | None => possibleReceivingAddresses
              end in
            let book :=
              match push with
              | Some _ => store e164 pushed e164NumberToAddress
              | None => e164NumberToAddress
              end in
            let possibleReceivingAddressesFormatted := map toLowerCase pushed in
            if negb (includes userScannedAddress possibleReceivingAddressesFormatted) then
              mkRun (Returned false)
                    [Track send_secure_incorrect true (Some QR_FAILED_INVALID_RECIPIENT);
                     Put (showMessage QR_FAILED_INVALID_RECIPIENT)]
                    book
            else
              mkRun (Returned true)
                    [Track send_secure_complete true None;
                     Put (validateRecipientAddressSuccess e164 userScannedAddress)]
                    book
        end
  end.

(** [JSON.parse], with the error it throws on the left, as text;
    [qrDataFromJson], with [PathReporter.report(either)[0]] on the left;
    and [getRecipientFromAddress] with its two caches. *)
Variable Json : Type.
Variable JSON_parse : string -> string + Json.
Variable qrDataFromJson : Json -> string + QrData.
Variables AddressToE164Number NumberToRecipient : Type.
Variable getRecipientFromAddress :
  string -> AddressToE164Number -> NumberToRecipient -> option CachedRecipient.

(** [a || b] on an optional string. *)
Definition or_else (a : option string) (b : string) : string :=
  match a with
  | Some x => if String.eqb x "" then b else x
  | None => b
  end.

(** [cachedRecipient?.field]. *)
Definition optional_field (c : option CachedRecipient)
  (field : CachedRecipient -> option string) : option string :=
  match c with
  | Some x => field x
  | None => None
  end.

(** [handleBarcode]. *)
Definition handleBarcode (barcode_data : string)
  (addressToE164Number : AddressToE164Number) (recipientCache : NumberToRecipient)
  (e164NumberToAddress : E164NumberToAddress)
  (secureSendTxData : option TransactionDataInput)
  (isOutgoingPaymentRequest : bool) (requesterAddress : option string)
  : Run unit :=
  match JSON_parse barcode_data with
  | inl e =>
      mkRun (Returned tt) [LoggerWarn TAG ("QR code read failed with " ++ e)]
            e164NumberToAddress
  | inr data =>
      match qrDataFromJson data with
      | inl report =>
          mkRun (Returned tt) [Put (showMessage report)] e164NumberToAddress
      | inr parsed =>
          let secure :=
            match secureSendTxData with
            | Some tx =>
                handleSecureSend (qr_address parsed) e164NumberToAddress tx requesterAddress
            | None => mkRun (Returned true) [] e164NumberToAddress
            end in
          match completion secure with
          | Thrown message => mkRun (Thrown message) (effects secure) (book_after secure)
          | Returned false => mkRun (Returned tt) (effects secure) (book_after secure)
          | Returned true =>
              let cachedRecipient :=
                getRecipientFromAddress (qr_address parsed) addressToE164Number
                  recipientCache in
              let recipient :=
                mkRecipientWithQrCode (qr_address parsed) (qr_e164PhoneNumber parsed)
                  (or_else (qr_displayName parsed) "QR Code")
                  (optional_field cachedRecipient phoneNumberLabel)
                  (optional_field cachedRecipient thumbnailPath)
                  (optional_field cachedRecipient contactId) in
              let navigation :=
                match secureSendTxData with
                | Some tx =>
                    if isOutgoingPaymentRequest
                    then Replace PaymentRequestConfirmation (ConfirmationParams tx true)
                    else Replace SendConfirmation (ConfirmationParams tx true)
                | None =>
                    Replace SendAmount
                      (SendAmountParams recipient true isOutgoingPaymentRequest
                         (qr_currencyCode parsed) (qr_amount parsed))
                end in
              mkRun (Returned tt) (effects secure ++ [navigation]) (book_after secure)
          end
      end
  end.

End Sagas.

(** The addresses a scan is checked against: the ones listed for the
    number, and the requester when there is one. *)
Definition candidates (possible : list string) (requesterAddress : option string)
  : list string :=
  match requesterAddress with
  | Some requester => if String.eqb requester "" then possible else possible ++ [requester]
  | None => possible
  end.

(** The array after the conditional [push] of the requester. *)
Definition after_push (possible : list string) (requesterAddress : option string)
  : list string :=
  match requesterAddress with
  | Some requester =>
      if present requesterAddress && negb (includes requester possible)
      then possible ++ [requester] else possible
  | None => possible
  end.

Definition is_replace (e : Effect) : bool :=
  match e with Replace _ _ => true | _ => false end.

(** Lower case of the ASCII letters, for running the sagas. *)
Definition lower_ascii (c : ascii) : ascii :=
  let n := nat_of_ascii c in
  if Nat.leb 65 n && Nat.leb n 90 then ascii_of_nat (n + 32) else c.

Fixpoint lower (s : string) : string :=
  match s with
  | EmptyString => EmptyString
  | String c rest => String (lower_ascii c) (lower rest)
  end.

End QR.


(** ** A scan to run the sagas on *)

Module QRDemo.

Import QR.

Definition message : string := "The scanned address is not the recipient's".

Definition number : string := "+15551234567".

Definition tx : TransactionDataInput :=
  mkTransactionData (mkRecipient "MobileNumber" (Some number)) "amount: 10".

Definition book : E164NumberToAddress := [(number, ["0xAbC1"; "0xdef2"])]%string.

Definition requester : string := "0xBEEF".

(** A decoder for codes that hold an address and nothing else. *)
Definition JSON_parse (data : string) : string + string :=
  if String.eqb data "" then inl "SyntaxError: Unexpected end of JSON input"%string
  else inr data.

Definition qrDataFromJson (json : string) : string + QrData :=
  inr (mkQrData json None None None None).

Definition getRecipientFromAddress (_ : string) (_ _ : unit) : option CachedRecipient :=
  None.

Definition handleBarcode :=
  QR.handleBarcode lower message string JSON_parse qrDataFromJson unit unit
    getRecipientFromAddress.

End QRDemo.

(** * Properties *)

(** ** Arithmetic of [uint256] *)

Lemma modulus_pos : 0 < UInt256.modulus.
Proof. reflexivity. Qed.

Lemma of_word_in_range x : UInt256.in_range (UInt256.of_word x).
Proof. apply Z.mod_pos_bound, modulus_pos. Qed.

Lemma add_in_range a b : UInt256.in_range (UInt256.add a b).
Proof. apply Z.mod_pos_bound, modulus_pos. Qed.

(** The check [before + n == after] and the difference [after - before],
    both in 256-bit arithmetic, say the same thing of a 256-bit [n]. *)
Lemma add_eq_sub_eq before n after :
  UInt256.in_range n -> UInt256.in_range after ->
  (UInt256.add before n = after <-> UInt256.sub after before = n).
Proof.
  unfold UInt256.in_range, UInt256.add, UInt256.sub.
  intros Hn Ha. split; intros H.
  - subst after.
    rewrite Zminus_mod_idemp_l.
    replace (before + n - before) with n by ring.
    apply Z.mod_small; assumption.
  - subst n.
    rewrite Zplus_mod_idemp_r.
    replace (before + (after - before)) with after by ring.
    apply Z.mod_small; assumption.
Qed.

(** Without wrap-around the check is the plain equation. *)
Lemma add_no_wrap before n :
  0 <= before -> 0 <= n -> before + n < UInt256.modulus ->
  UInt256.add before n = before + n.
Proof.
  intros. unfold UInt256.add. apply Z.mod_small. lia.
Qed.

(** [SafeMath_mul] returns the exact product when it fits in 256 bits and
    fails otherwise. *)
Lemma SafeMath_mul_spec a b :
  UInt256.in_range a -> UInt256.in_range b ->
  SafeMath_mul a b =
    if a * b <? UInt256.modulus then inr (a * b) else inl FeeOverflow.
Proof.
  unfold UInt256.in_range, SafeMath_mul, UInt256.mul.
  intros Ha Hb.
  destruct (Z.eqb_spec a 0) as [-> | Hnz].
  - simpl. reflexivity.
  - assert (Hapos : 0 < a) by lia.
    destruct (Z.ltb_spec (a * b) UInt256.modulus) as [Hfit | Hover].
    + rewrite (Z.mod_small (a * b)) by nia.
      rewrite Z.mul_comm, Z.div_mul by lia.
      rewrite Z.eqb_refl. reflexivity.
    + assert (Hlt : (a * b) mod UInt256.modulus < UInt256.modulus)
        by (apply Z.mod_pos_bound, modulus_pos).
      assert (Hdiv : (a * b) mod UInt256.modulus / a < b).
      { apply Z.div_lt_upper_bound; [assumption | lia]. }
      destruct (Z.eqb_spec ((a * b) mod UInt256.modulus / a) b); [lia | reflexivity].
Qed.

(** ** Running contract code *)

Section Running.

Context {World : Type}.

Lemma bind_ok {A B} (m : M World A) (k : A -> M World B) st w l1 a st1 w1 :
  m st w = (l1, Ok a st1 w1) ->
  bind m k st w = (l1 ++ fst (k a st1 w1), snd (k a st1 w1)).
Proof.
  intros H. unfold bind. rewrite H. destruct (k a st1 w1); reflexivity.
Qed.

Lemma bind_revert {A B} (m : M World A) (k : A -> M World B) st w l1 e :
  m st w = (l1, Revert e) ->
  bind m k st w = (l1, Revert e).
Proof.
  intros H. unfold bind. rewrite H. reflexivity.
Qed.

Lemma bind_ret {A B} (a : A) (k : A -> M World B) st w :
  bind (ret a) k st w = k a st w.
Proof. unfold bind, ret. destruct (k a st w); reflexivity. Qed.

Lemma bind_gets {A B} (f : State -> A) (k : A -> M World B) st w :
  bind (gets f) k st w = k (f st) st w.
Proof. unfold bind, gets. destruct (k (f st) st w); reflexivity. Qed.

Lemma bind_require {B} b e (k : unit -> M World B) st w :
  bind (require b e) k st w = if b then k tt st w else ([], Revert e).
Proof.
  destruct b; simpl.
  - apply bind_ret.
  - reflexivity.
Qed.

(** A successful [bind] ran both halves. *)
Lemma bind_ok_inv {A B} (m : M World A) (k : A -> M World B) st w l b st2 w2 :
  bind m k st w = (l, Ok b st2 w2) ->
  exists l1 a st1 w1 l2,
    m st w = (l1, Ok a st1 w1) /\
    k a st1 w1 = (l2, Ok b st2 w2) /\
    l = l1 ++ l2.
Proof.
  unfold bind. destruct (m st w) as [l1 [a st1 w1 | e]].
  - destruct (k a st1 w1) as [l2 r] eqn:Hk. intros H. inversion H; subst.
    exists l1, a, st1, w1, l2. auto.
  - discriminate.
Qed.

Lemma view_keeps_state {A} (m : M World A) : is_view m -> keeps_state m.
Proof. intros H st w l a st' w' E. apply (H _ _ _ _ _ _ E). Qed.

Lemma keeps_state_bind {A B} (m : M World A) (k : A -> M World B) :
  keeps_state m -> (forall a, keeps_state (k a)) -> keeps_state (bind m k).
Proof.
  intros Hm Hk st w l b st2 w2 E.
  apply bind_ok_inv in E as (l1 & a & st1 & w1 & l2 & E1 & E2 & _).
  apply Hm in E1. apply Hk in E2. congruence.
Qed.

Lemma is_view_bind {A B} (m : M World A) (k : A -> M World B) :
  is_view m -> (forall a, is_view (k a)) -> is_view (bind m k).
Proof.
  intros Hm Hk st w l b st2 w2 E.
  apply bind_ok_inv in E as (l1 & a & st1 & w1 & l2 & E1 & E2 & _).
  apply Hm in E1 as [-> ->]. apply Hk in E2. assumption.
Qed.

Lemma is_view_ret {A} (a : A) : is_view (@ret World A a).
Proof. intros st w l x st' w' E. inversion E; auto. Qed.

Lemma is_view_gets {A} (f : State -> A) : is_view (@gets World A f).
Proof. intros st w l x st' w' E. inversion E; auto. Qed.

Lemma is_view_require b e : is_view (@require World b e).
Proof.
  intros st w l x st' w' E. destruct b; simpl in E.
  - inversion E; auto.
  - discriminate.
Qed.

Lemma is_view_staticcall {A} c (f : World -> option A) : is_view (staticcall c f).
Proof.
  intros st w l x st' w' E. unfold staticcall in E.
  destruct (f w); inversion E; auto.
Qed.

Lemma is_view_lift_sum {A} (r : Error + A) : is_view (@lift_sum World A r).
Proof.
  intros st w l x st' w' E. destruct r; simpl in E.
  - discriminate.
  - inversion E; auto.
Qed.

Lemma is_view_index {A} (xs : list A) i : is_view (@index World A xs i).
Proof.
  intros st w l x st' w' E. unfold index in E.
  destruct (nth_error xs i); inversion E; auto.
Qed.

Lemma keeps_state_extcall {A} c (f : World -> option (A * World)) :
  keeps_state (extcall c f).
Proof.
  intros st w l x st' w' E. unfold extcall in E.
  destruct (f w) as [[a w1] |]; inversion E; auto.
Qed.

End Running.

Create HintDb run.

#[local] Hint Resolve is_view_ret is_view_gets is_view_require is_view_staticcall
  is_view_lift_sum is_view_index keeps_state_extcall view_keeps_state : run.

Ltac step_view :=
  repeat first
    [ apply is_view_bind; [ | intro ]
    | solve [ auto with run ] ].

Ltac step_keeps :=
  repeat first
    [ apply keeps_state_bind; [ | intro ]
    | solve [ auto with run ] ].

(** ** The pieces of the contract *)

Section Pieces.

Context {World : Type} (env : Env World).

Lemma getAttestations_view : is_view (getAttestations env).
Proof. unfold getAttestations. step_view. Qed.

Lemma getStableToken_view : is_view (getStableToken env).
Proof. unfold getStableToken. step_view. Qed.

#[local] Hint Resolve getAttestations_view getStableToken_view : run.

Lemma getAttestationRequests_view identifier account :
  is_view (getAttestationRequests env identifier account).
Proof. unfold getAttestationRequests. step_view. Qed.

Lemma calculateTotalFee_view n : is_view (calculateTotalFee env n).
Proof. unfold calculateTotalFee. step_view. Qed.

Lemma metaApproveCUSD_keeps wallet fee v r s :
  keeps_state (metaApproveCUSD env wallet fee v r s).
Proof. unfold metaApproveCUSD. step_keeps. Qed.

Lemma metaRequestAttestations_keeps wallet identifier n v r s :
  keeps_state (metaRequestAttestations env wallet identifier n v r s).
Proof. unfold metaRequestAttestations. step_keeps. Qed.

#[local] Hint Resolve getAttestationRequests_view calculateTotalFee_view
  metaApproveCUSD_keeps metaRequestAttestations_keeps : run.

(** The three downstream steps never write the storage of this contract. *)
Lemma _requestAttestationsWithSubsidy_keeps wallet identifier n v r s :
  keeps_state (_requestAttestationsWithSubsidy env wallet identifier n v r s).
Proof. unfold _requestAttestationsWithSubsidy. step_keeps. Qed.

(** [onlyOwner] runs the body for the owner and nothing for anybody else. *)
Lemma onlyOwner_run {A} sender (body : M World A) st w :
  onlyOwner sender body st w =
    if sender =? owner st then body st w else ([], Revert Unauthorized).
Proof.
  unfold onlyOwner, bind, gets, require.
  destruct (sender =? owner st); simpl.
  - destruct (body st w); reflexivity.
  - reflexivity.
Qed.

(** [nonReentrant] refuses when the lock is held; otherwise the body runs
    with the lock held, and the lock is released when it returns. *)
Lemma nonReentrant_run {A} (body : M World A) st w :
  nonReentrant body st w =
    if locked st then ([], Revert ReentrantCall)
    else match body (set_locked true st) w with
         | (l, Ok a st' w') => (l, Ok a (set_locked false st') w')
         | (l, Revert e) => (l, Revert e)
         end.
Proof.
  unfold nonReentrant, enter, exit, bind, gets, require, modify, ret.
  destruct (locked st); simpl.
  - reflexivity.
  - destruct (body (set_locked true st) w) as [l [a st' w' | e]]; simpl.
    + rewrite app_nil_r. reflexivity.
    + reflexivity.
Qed.

(** The counter read depends on the storage through the registry only. *)
Lemma usage_registry st1 st2 identifier account w :
  registry st1 = registry st2 ->
  usage env st1 identifier account w = usage env st2 identifier account w.
Proof.
  intros Hreg.
  unfold usage, getAttestationRequests, getAttestations, bind, gets, staticcall, ret.
  rewrite Hreg.
  destruct (getAddressForOrDie env (registry st2) ATTESTATIONS_REGISTRY_ID w); simpl;
    [ | reflexivity ].
  destruct (getAttestationStats env a identifier account w); reflexivity.
Qed.

Lemma usage_of_run identifier account st w l n st' w' :
  getAttestationRequests env identifier account st w = (l, Ok n st' w') ->
  usage env st identifier account w = Some n /\ st' = st /\ w' = w.
Proof.
  intros E. split.
  - unfold usage. rewrite E. reflexivity.
  - apply (getAttestationRequests_view _ _ _ _ _ _ _ _ E).
Qed.

Lemma run_of_usage identifier account st w n :
  usage env st identifier account w = Some n ->
  exists l, getAttestationRequests env identifier account st w = (l, Ok n st w).
Proof.
  unfold usage.
  destruct (getAttestationRequests env identifier account st w)
    as [l [a st' w' | e]] eqn:E; [ | discriminate ].
  intros H. inversion H; subst.
  destruct (getAttestationRequests_view _ _ _ _ _ _ _ _ E) as [-> ->].
  exists l. reflexivity.
Qed.

Lemma usage_in_range identifier account st w n :
  usage env st identifier account w = Some n -> UInt256.in_range n.
Proof.
  intros H. apply run_of_usage in H as [l E].
  unfold getAttestationRequests in E.
  apply bind_ok_inv in E as (l1 & a & st1 & w1 & l2 & _ & E & _).
  apply bind_ok_inv in E as (l3 & p & st2 & w2 & l4 & _ & E & _).
  inversion E. apply of_word_in_range.
Qed.

End Pieces.

(** ** The orchestration, step by step *)

Section Orchestration.

Context {World : Type} (env : Env World).

Variables (beneficiaryMetaWallet : address) (identifier : bytes32)
  (attestationsRequested : Z) (v : list Z) (r s : list bytes32).

#[local] Abbreviation body :=
  (requestAttestationsWithSubsidy_body env beneficiaryMetaWallet identifier
     attestationsRequested v r s).

#[local] Abbreviation chain :=
  (_requestAttestationsWithSubsidy env beneficiaryMetaWallet identifier
     attestationsRequested v r s).

(** Without two [v], [r] and [s] components the body stops at the first
    [require], before any external call. *)
Lemma body_malformed st w :
  two_signatures v r s = false ->
  body st w = ([], Revert MalformedRequest).
Proof.
  unfold two_signatures, requestAttestationsWithSubsidy_body.
  intros H.
  rewrite bind_require.
  destruct (Nat.eqb (List.length v) 2); [ | reflexivity ].
  rewrite bind_require.
  destruct (Nat.eqb (List.length r) 2); [ | reflexivity ].
  rewrite bind_require.
  destruct (Nat.eqb (List.length s) 2); [ discriminate | reflexivity ].
Qed.

(** With them, the body is the limit check followed by the chain and the
    check of the counter. *)
Lemma body_well_formed st w :
  two_signatures v r s = true ->
  body st w =
    if checkWithinLimit attestationsRequested st then
      bind (getAttestationRequests env identifier beneficiaryMetaWallet)
        (fun requestsBefore =>
         bind chain (fun totalFee =>
         bind (getAttestationRequests env identifier beneficiaryMetaWallet)
           (fun requestsAfter =>
            bind (require (UInt256.add requestsBefore attestationsRequested
                           =? requestsAfter) InvariantViolation)
              (fun _ => emit (AttestationSubsidised beneficiaryMetaWallet totalFee)))))
        st w
    else ([], Revert LimitExceeded).
Proof.
  unfold two_signatures, requestAttestationsWithSubsidy_body.
  intros H.
  apply andb_prop in H as [H Hs]. apply andb_prop in H as [Hv Hr].
  rewrite Hv, Hr, Hs.
  rewrite !bind_require, bind_gets, bind_require.
  reflexivity.
Qed.

(** A body that returns went through every step: the counter was read, the
    chain ran, the counter was read again in the world the chain left, the
    two reads differ by the request, and the event is the only change to
    the storage. *)
Lemma body_ok_inv st w l u st' w' :
  body st w = (l, Ok u st' w') ->
  two_signatures v r s = true /\
  checkWithinLimit attestationsRequested st = true /\
  exists requestsBefore totalFee requestsAfter l1,
    usage env st identifier beneficiaryMetaWallet w = Some requestsBefore /\
    chain st w = (l1, Ok totalFee st w') /\
    usage env st identifier beneficiaryMetaWallet w' = Some requestsAfter /\
    UInt256.add requestsBefore attestationsRequested = requestsAfter /\
    st' = add_event (AttestationSubsidised beneficiaryMetaWallet totalFee) st.
Proof.
  intros E.
  destruct (two_signatures v r s) eqn:Hwf.
  2: { rewrite body_malformed in E by assumption. discriminate. }
  rewrite body_well_formed in E by assumption.
  destruct (checkWithinLimit attestationsRequested st) eqn:Hlim; [ | discriminate ].
  split; [ reflexivity | split; [ reflexivity | ] ].
  apply bind_ok_inv in E as (l1 & before & st1 & w1 & l2 & E1 & E & _).
  apply usage_of_run in E1 as (Hbefore & -> & ->).
  apply bind_ok_inv in E as (l3 & fee & st2 & w2 & l4 & E2 & E & _).
  pose proof (_requestAttestationsWithSubsidy_keeps _ _ _ _ _ _ _ _ _ _ _ _ _ E2) as ->.
  apply bind_ok_inv in E as (l5 & after & st3 & w3 & l6 & E3 & E & _).
  apply usage_of_run in E3 as (Hafter & -> & ->).
  apply bind_ok_inv in E as (l7 & [] & st4 & w4 & l8 & E4 & E & _).
  destruct (Z.eqb_spec (UInt256.add before attestationsRequested) after) as [Hchk | Hchk];
    simpl in E4; [ | discriminate ].
  inversion E4; subst st4 w4.
  unfold emit, modify in E. inversion E; subst.
  exists before, fee, (UInt256.add before attestationsRequested), l3.
  repeat split; assumption.
Qed.

(** When every step of the chain went through, the outcome is decided by
    the check of the counter alone. *)
Lemma body_chain_completed st w requestsBefore totalFee requestsAfter l1 w1 :
  two_signatures v r s = true ->
  checkWithinLimit attestationsRequested st = true ->
  usage env st identifier beneficiaryMetaWallet w = Some requestsBefore ->
  chain st w = (l1, Ok totalFee st w1) ->
  usage env st identifier beneficiaryMetaWallet w1 = Some requestsAfter ->
  exists l,
    body st w =
      (l, if UInt256.add requestsBefore attestationsRequested =? requestsAfter
          then Ok tt (add_event (AttestationSubsidised beneficiaryMetaWallet totalFee) st) w1
          else Revert InvariantViolation).
Proof.
  intros Hwf Hlim Hbefore Hchain Hafter.
  rewrite body_well_formed by assumption. rewrite Hlim.
  apply run_of_usage in Hbefore as [la Ea].
  apply run_of_usage in Hafter as [lb Eb].
  rewrite (bind_ok _ _ _ _ _ _ _ _ Ea).
  rewrite (bind_ok _ _ _ _ _ _ _ _ Hchain).
  rewrite (bind_ok _ _ _ _ _ _ _ _ Eb).
  destruct (UInt256.add requestsBefore attestationsRequested =? requestsAfter);
    simpl; eexists; reflexivity.
Qed.

End Orchestration.

(** ** The entry points as case analyses *)

Section EntryPoints.

Context {World : Type} (env : Env World).

(** [requestAttestationsWithSubsidy]: the owner gate, then the lock, then
    the body; a revert restores storage and world. *)
Lemma request_run sender wallet id n v r s st w :
  transact (requestAttestationsWithSubsidy env sender wallet id n v r s) st w =
    if sender =? owner st then
      if locked st then mkOutcome (Failed ReentrantCall) st w []
      else match requestAttestationsWithSubsidy_body env wallet id n v r s
                   (set_locked true st) w with
           | (l, Ok _ st' w') => mkOutcome Success (set_locked false st') w' l
           | (l, Revert e) => mkOutcome (Failed e) st w l
           end
    else mkOutcome (Failed Unauthorized) st w [].
Proof.
  unfold transact, requestAttestationsWithSubsidy.
  rewrite onlyOwner_run.
  destruct (sender =? owner st); [ | reflexivity ].
  rewrite nonReentrant_run.
  destruct (locked st); [ reflexivity | ].
  destruct (requestAttestationsWithSubsidy_body env wallet id n v r s
              (set_locked true st) w) as [l [a st' w' | e]]; reflexivity.
Qed.


(** [setMaxSubsidisedAttestations]: the owner gate, then the positivity
    check, then the write and the event. *)
Lemma setMax_run sender n st (w : World) :
  transact (setMaxSubsidisedAttestations sender n) st w =
    if sender =? owner st then
      if 0 <? n then
        mkOutcome Success
          (add_event (MaxSubsidisedAttestationsSet n) (set_maxSubsidisedAttestations n st)) w []
      else mkOutcome (Failed InvalidLimit) st w []
    else mkOutcome (Failed Unauthorized) st w [].
Proof.
  unfold transact, setMaxSubsidisedAttestations.
  rewrite onlyOwner_run.
  destruct (sender =? owner st); [ | reflexivity ].
  rewrite bind_require.
  destruct (0 <? n); reflexivity.
Qed.


(** [initialize]: once only; the caller becomes the owner, the registry
    and the limit are set through their setters. *)
Lemma initialize_run sender reg n st (w : World) :
  transact (initialize sender reg n) st w =
    if initialized st then mkOutcome (Failed AlreadyInitialized) st w []
    else if sender =? 0 then mkOutcome (Failed ZeroAddress) st w []
    else if reg =? 0 then mkOutcome (Failed NullRegistry) st w []
    else if 0 <? n then
      mkOutcome Success
        (mkState sender true reg (locked st) n
           (events st ++ [OwnershipTransferred (owner st) sender]
                      ++ [RegistrySet reg] ++ [MaxSubsidisedAttestationsSet n])) w []
    else mkOutcome (Failed InvalidLimit) st w [].
Proof.
  unfold transact, initialize, initializer, _transferOwnership, setRegistry,
    setMaxSubsidisedAttestations, onlyOwner.
  unfold bind, gets, require, modify, emit, ret, revert. simpl.
  destruct (initialized st); simpl; [ reflexivity | ].
  destruct (sender =? 0); simpl; [ reflexivity | ].
  rewrite !Z.eqb_refl. simpl.
  destruct (reg =? 0); simpl; [ reflexivity | ].
  rewrite ?Z.eqb_refl. simpl.
  destruct (0 <? n); simpl; [ | reflexivity ].
  unfold add_event, set_maxSubsidisedAttestations, set_registry, set_owner, set_initialized; simpl.
  rewrite <- !app_assoc. reflexivity.
Qed.
End EntryPoints.

(** ** The gates of [requestAttestationsWithSubsidy] *)

Section Gates.

Context {World : Type} (env : Env World).

Variables (sender beneficiaryMetaWallet : address) (identifier : bytes32)
  (attestationsRequested : Z) (v : list Z) (r s : list bytes32).

#[local] Abbreviation request :=
  (requestAttestationsWithSubsidy env sender beneficiaryMetaWallet identifier
     attestationsRequested v r s).

(** Whatever stops the call before the chain stops it before any external
    call, and leaves storage and world untouched. *)
Lemma gate_outcomes st w :
  transact request st w =
    if sender =? owner st then
      if locked st then mkOutcome (Failed ReentrantCall) st w []
      else if two_signatures v r s then
        if checkWithinLimit attestationsRequested st then transact request st w
        else mkOutcome (Failed LimitExceeded) st w []
      else mkOutcome (Failed MalformedRequest) st w []
    else mkOutcome (Failed Unauthorized) st w [].
Proof.
  destruct (sender =? owner st) eqn:Ho; [ | rewrite request_run, Ho; reflexivity ].
  destruct (locked st) eqn:Hl; [ rewrite request_run, Ho, Hl; reflexivity | ].
  destruct (two_signatures v r s) eqn:Hwf.
  - destruct (checkWithinLimit attestationsRequested st) eqn:Hlim; [ reflexivity | ].
    rewrite request_run, Ho, Hl, body_well_formed by assumption.
    unfold checkWithinLimit in *. simpl. rewrite Hlim. reflexivity.
  - rewrite request_run, Ho, Hl, body_malformed by assumption. reflexivity.
Qed.

(** C9. The entry point is callable by the owner only: for every other
    caller the call fails with [Unauthorized] whatever the request and the
    lock are, no external call is attempted, and storage, events and world
    are unchanged. *)
Theorem request_only_owner st w :
  sender <> owner st ->
  transact request st w = mkOutcome (Failed Unauthorized) st w [].
Proof.
  intros H. rewrite request_run.
  destruct (Z.eqb_spec sender (owner st)); [ contradiction | reflexivity ].
Qed.


(** C3, as the code has it.  The limit is an exclusive bound: the check
    passes exactly when the request is strictly below it.  A request at or
    above the limit always fails, makes no external call and changes
    nothing.  From a caller other than the owner it fails with
    [Unauthorized].  The body, once its modifiers let it run, fails with
    [MalformedRequest] when two [v], [r] and [s] are not supplied and with
    [LimitExceeded] otherwise, and that is the outcome of the owner's call
    whenever no call is in flight. *)
Theorem limit_is_exclusive st w :
  (checkWithinLimit attestationsRequested st = true <->
     attestationsRequested < maxSubsidisedAttestations st) /\
  (maxSubsidisedAttestations st <= attestationsRequested ->
     (exists e, transact request st w = mkOutcome (Failed e) st w []) /\
     (sender <> owner st ->
        transact request st w = mkOutcome (Failed Unauthorized) st w []) /\
     requestAttestationsWithSubsidy_body env beneficiaryMetaWallet identifier
       attestationsRequested v r s st w
       = ([], Revert (if two_signatures v r s then LimitExceeded
                      else MalformedRequest)) /\
     (sender = owner st -> locked st = false ->
        transact request st w
        = mkOutcome (Failed (if two_signatures v r s then LimitExceeded
                             else MalformedRequest)) st w [])).
Proof.
  split.
  - unfold checkWithinLimit. apply Z.ltb_lt.
  - intros Hge.
    assert (Hlim : checkWithinLimit attestationsRequested st = false).
    { unfold checkWithinLimit. apply Z.ltb_ge. assumption. }
    split; [ | split; [ | split ] ].
    + rewrite gate_outcomes, Hlim.
      destruct (sender =? owner st); [ | eexists; reflexivity ].
      destruct (locked st); [ eexists; reflexivity | ].
      destruct (two_signatures v r s); eexists; reflexivity.
    + intros Ho. rewrite gate_outcomes.
      destruct (Z.eqb_spec sender (owner st)); [ contradiction | reflexivity ].
    + destruct (two_signatures v r s) eqn:Hwf.
      * rewrite body_well_formed, Hlim by assumption. reflexivity.
      * apply body_malformed. assumption.
    + intros Ho Hl. rewrite gate_outcomes, Hl, Hlim.
      subst sender. rewrite Z.eqb_refl.
      destruct (two_signatures v r s); reflexivity.
Qed.


End Gates.

(** ** The post-condition, the fee and the limit *)

Section Accounting.

Context {World : Type} (env : Env World).

(** What the check of line 104 gives.  A call that returns success has
    read the counter before and after the chain and found
    [usageAfter - usageBefore == requestedUnits] in the contract's 256-bit
    arithmetic, and as plain integers whenever
    [usageBefore + requestedUnits] stays within 256 bits.  When every
    downstream step goes through but the difference is not the request, the
    call aborts with [InvariantViolation]: storage and world are restored.
    The event is emitted on success only: a failed call leaves the events
    as they were. *)
Theorem counter_delta
  sender wallet identifier n v r s st w :
  UInt256.in_range n ->
  let out :=
    transact (requestAttestationsWithSubsidy env sender wallet identifier n v r s) st w in
  (status out = Success ->
     exists usageBefore usageAfter totalFee,
       usage env st identifier wallet w = Some usageBefore /\
       usage env st identifier wallet (world_after out) = Some usageAfter /\
       UInt256.sub usageAfter usageBefore = n /\
       (usageBefore + n < UInt256.modulus -> usageAfter - usageBefore = n) /\
       events (state_after out) = events st ++ [AttestationSubsidised wallet totalFee]) /\
  (forall usageBefore usageAfter totalFee l1 st1 w1,
     sender = owner st -> locked st = false ->
     two_signatures v r s = true -> checkWithinLimit n st = true ->
     usage env st identifier wallet w = Some usageBefore ->
     _requestAttestationsWithSubsidy env wallet identifier n v r s
       (set_locked true st) w = (l1, Ok totalFee st1 w1) ->
     usage env st identifier wallet w1 = Some usageAfter ->
     UInt256.sub usageAfter usageBefore <> n ->
     status out = Failed InvariantViolation /\
     state_after out = st /\ world_after out = w) /\
  (status out <> Success -> events (state_after out) = events st).
Proof.
  intros Hn out. subst out. rewrite request_run.
  assert (Hreg : registry (set_locked true st) = registry st) by reflexivity.
  split; [ | split ].
  - destruct (sender =? owner st); [ | discriminate ].
    destruct (locked st); [ discriminate | ].
    destruct (requestAttestationsWithSubsidy_body env wallet identifier n v r s
                (set_locked true st) w) as [l [[] st' w' | e]] eqn:E;
      [ | discriminate ].
    intros _. simpl.
    apply body_ok_inv in E
      as (_ & _ & before & fee & after & l1 & Hb & _ & Ha & Hchk & ->).
    rewrite (usage_registry env _ _ _ _ w Hreg) in Hb.
    rewrite (usage_registry env _ _ _ _ w' Hreg) in Ha.
    pose proof (usage_in_range env _ _ _ _ _ Hb) as Rb.
    pose proof (usage_in_range env _ _ _ _ _ Ha) as Ra.
    exists before, after, fee. repeat split; try assumption.
    + exact (proj1 (add_eq_sub_eq before n after Hn Ra) Hchk).
    + intros Hfit. unfold UInt256.in_range in *.
      rewrite add_no_wrap in Hchk by lia. lia.
  - intros before after fee l1 st1 w1 Ho Hl Hwf Hlim Hb Hchain Ha Hneq.
    subst sender. rewrite Z.eqb_refl, Hl.
    pose proof (_requestAttestationsWithSubsidy_keeps env _ _ _ _ _ _ _ _ _ _ _ _ Hchain)
      as ->.
    rewrite <- (usage_registry env _ _ _ _ w Hreg) in Hb.
    rewrite <- (usage_registry env _ _ _ _ w1 Hreg) in Ha.
    destruct (body_chain_completed env wallet identifier n v r s
                (set_locked true st) w before fee after l1 w1 Hwf Hlim Hb Hchain Ha)
      as [l E].
    rewrite E.
    destruct (Z.eqb_spec (UInt256.add before n) after) as [Hchk | Hchk].
    + exfalso. apply Hneq.
      exact (proj1 (add_eq_sub_eq before n after Hn
                      (usage_in_range env _ _ _ _ _ Ha)) Hchk).
    + simpl. auto.
  - destruct (sender =? owner st); [ | reflexivity ].
    destruct (locked st); [ reflexivity | ].
    destruct (requestAttestationsWithSubsidy_body env wallet identifier n v r s
                (set_locked true st) w) as [l [[] st' w' | e]];
      [ intros H; exfalso; apply H; reflexivity | reflexivity ].
Qed.

(** The fee of a chain that went through is the one [calculateTotalFee]
    computed in the world the call started in. *)
Lemma chain_fee wallet identifier n v r s st w l totalFee st' w' :
  _requestAttestationsWithSubsidy env wallet identifier n v r s st w
    = (l, Ok totalFee st' w') ->
  exists l0, calculateTotalFee env n st w = (l0, Ok totalFee st w).
Proof.
  intros E. unfold _requestAttestationsWithSubsidy in E.
  apply bind_ok_inv in E as (l1 & fee & st1 & w1 & l2 & E1 & E & _).
  destruct (calculateTotalFee_view env _ _ _ _ _ _ _ E1) as [-> ->].
  assert (fee = totalFee) as ->.
  { repeat (apply bind_ok_inv in E as (? & ? & ? & ? & ? & _ & E & _)).
    inversion E. reflexivity. }
  exists l1. assumption.
Qed.

(** What [calculateTotalFee] returns, given the price the oracle quotes. *)
Lemma calculateTotalFee_run n st w price :
  unitPrice env st w = Some price ->
  exists l,
    calculateTotalFee env n st w =
      (l, match SafeMath_mul price n with
          | inr fee => Ok fee st w
          | inl e => Revert e
          end).
Proof.
  unfold unitPrice, calculateTotalFee, getAttestations, getStableToken.
  intros H.
  destruct (getAddressForOrDie env (registry st) ATTESTATIONS_REGISTRY_ID w)
    as [att | ] eqn:Eatt; [ | discriminate ].
  destruct (getAddressForOrDie env (registry st) STABLE_TOKEN_REGISTRY_ID w)
    as [token | ] eqn:Etok; [ | discriminate ].
  destruct (getAttestationRequestFee env att token w) as [fee | ] eqn:Efee;
    [ | discriminate ].
  simpl in H. inversion H; subst price.
  unfold bind, gets, staticcall. rewrite Eatt, Etok, Efee. simpl.
  destruct (SafeMath_mul (UInt256.of_word fee) n); simpl; eexists; reflexivity.
Qed.

(** C5. The total fee is the unit price times the requested units, the
    price being the one the oracle quotes when the call is made (the same
    for every identifier: the fee is asked for the stable token); the
    product is checked, and when it does not fit in 256 bits the call
    fails with [FeeOverflow] instead of returning a wrapped value.  So the
    fee charged by a chain that goes through, for whatever identifier, is
    that exact product. *)
Theorem total_fee_is_price_times_units n st w price :
  UInt256.in_range n ->
  unitPrice env st w = Some price ->
  (exists l,
     calculateTotalFee env n st w =
       (l, if price * n <? UInt256.modulus then Ok (price * n) st w
           else Revert FeeOverflow)) /\
  (forall wallet identifier v r s l totalFee st' w',
     _requestAttestationsWithSubsidy env wallet identifier n v r s st w
       = (l, Ok totalFee st' w') ->
     totalFee = price * n /\ price * n < UInt256.modulus).
Proof.
  intros Hn Hprice.
  assert (Rp : UInt256.in_range price).
  { unfold unitPrice in Hprice.
    destruct (getAddressForOrDie env (registry st) ATTESTATIONS_REGISTRY_ID w);
      [ | discriminate ].
    destruct (getAddressForOrDie env (registry st) STABLE_TOKEN_REGISTRY_ID w);
      [ | discriminate ].
    destruct (getAttestationRequestFee env a a0 w); [ | discriminate ].
    inversion Hprice. apply of_word_in_range. }
  destruct (calculateTotalFee_run n st w price Hprice) as [l0 E0].
  rewrite SafeMath_mul_spec in E0 by assumption.
  split.
  - exists l0. rewrite E0. destruct (price * n <? UInt256.modulus); reflexivity.
  - intros wallet identifier v r s l totalFee st' w' E.
    apply chain_fee in E as [l1 E1]. rewrite E0 in E1.
    destruct (Z.ltb_spec (price * n) UInt256.modulus); inversion E1.
    split; [ reflexivity | assumption ].
Qed.

(** C6. [setMaxSubsidisedAttestations] fails with [Unauthorized] for a
    caller that is not the owner, and with [InvalidLimit] for an owner that
    passes a limit that is not positive; both leave the storage, and so the
    limit, as it was.  Otherwise it succeeds: the limit is the new one and
    [MaxSubsidisedAttestationsSet] is emitted. *)
Theorem setMaxSubsidisedAttestations_cases sender newLimit st (w : World) :
  let out := transact (setMaxSubsidisedAttestations sender newLimit) st w in
  (sender <> owner st ->
     status out = Failed Unauthorized /\ state_after out = st) /\
  (sender = owner st -> newLimit <= 0 ->
     status out = Failed InvalidLimit /\ state_after out = st) /\
  (sender = owner st -> 0 < newLimit ->
     status out = Success /\
     maxSubsidisedAttestations (state_after out) = newLimit /\
     events (state_after out) = events st ++ [MaxSubsidisedAttestationsSet newLimit] /\
     owner (state_after out) = owner st) /\
  (status out <> Success -> maxSubsidisedAttestations (state_after out)
                            = maxSubsidisedAttestations st).
Proof.
  intros out. subst out. rewrite setMax_run.
  destruct (Z.eqb_spec sender (owner st)) as [Ho | Ho].
  - destruct (Z.ltb_spec 0 newLimit) as [Hpos | Hneg].
    + repeat split; intros; try contradiction; try reflexivity; lia.
    + repeat split; intros; try contradiction; try reflexivity; lia.
  - repeat split; intros; try contradiction; reflexivity.
Qed.

End Accounting.

(** ** The limit stays positive *)

Section Invariant.

Context {World : Type} (env : Env World).

(** No entry point takes a positive limit to one that is not. *)
Lemma dispatch_keeps_positive sender e st w :
  0 < maxSubsidisedAttestations st ->
  0 < maxSubsidisedAttestations (state_after (transact (dispatch env sender e) st w)).
Proof.
  intros Hpos. destruct e as [reg n | n | wallet identifier n v r s]; simpl.
  - rewrite initialize_run.
    destruct (initialized st); [ assumption | ].
    destruct (sender =? 0); [ assumption | ].
    destruct (reg =? 0); [ assumption | ].
    destruct (Z.ltb_spec 0 n); simpl; assumption.
  - rewrite setMax_run.
    destruct (sender =? owner st); [ | assumption ].
    destruct (Z.ltb_spec 0 n); simpl; assumption.
  - rewrite request_run.
    destruct (sender =? owner st); [ | assumption ].
    destruct (locked st); [ assumption | ].
    destruct (requestAttestationsWithSubsidy_body env wallet identifier n v r s
                (set_locked true st) w) as [l [[] st' w' | err]] eqn:E;
      [ | assumption ].
    apply body_ok_inv in E as (_ & _ & _ & fee & _ & _ & _ & _ & _ & _ & ->).
    simpl. assumption.
Qed.

(** C7. The limit is strictly positive in every state the contract is in
    from its initialization on: a successful [initialize] stores the
    positive limit it was given, and no later call, by anybody, makes it
    non-positive; an update to a value that is not positive fails and
    leaves the storage as it was. *)
Theorem limit_always_positive :
  (forall st0 (w : World) sender reg n,
     status (transact (initialize sender reg n) st0 w) = Success ->
     maxSubsidisedAttestations (state_after (transact (initialize sender reg n) st0 w)) = n
     /\ 0 < n) /\
  (forall st, reachable env st -> 0 < maxSubsidisedAttestations st) /\
  (forall st (w : World) sender n,
     n <= 0 ->
     exists e, transact (setMaxSubsidisedAttestations sender n) st w
               = mkOutcome (Failed e) st w []).
Proof.
  assert (Hinit : forall st0 (w : World) sender reg n,
     status (transact (initialize sender reg n) st0 w) = Success ->
     maxSubsidisedAttestations (state_after (transact (initialize sender reg n) st0 w)) = n
     /\ 0 < n).
  { intros st0 w sender reg n. rewrite initialize_run.
    destruct (initialized st0); [ discriminate | ].
    destruct (sender =? 0); [ discriminate | ].
    destruct (reg =? 0); [ discriminate | ].
    destruct (Z.ltb_spec 0 n); [ | discriminate ].
    intros _. split; [ reflexivity | assumption ]. }
  split; [ exact Hinit | split ].
  - intros st Hreach. induction Hreach as [st0 w sender reg n _ Hok | st w sender e _ IH].
    + destruct (Hinit st0 w sender reg n Hok) as [-> Hpos]. assumption.
    + apply dispatch_keeps_positive. assumption.
  - intros st w sender n Hn. rewrite setMax_run.
    destruct (sender =? owner st); [ | eexists; reflexivity ].
    destruct (Z.ltb_spec 0 n); [ lia | eexists; reflexivity ].
Qed.

End Invariant.

(** ** Request validation *)

Module InputValidationFacts.

Import InputValidation.

(** A body without a [timestamp] field passes. *)
Lemma hasValidTimestamp_absent window now body :
  get_field "timestamp" body = JsUndefined ->
  hasValidTimestamp window now body = true.
Proof. intros H. unfold hasValidTimestamp. rewrite H. reflexivity. Qed.

(** A numeric timestamp other than [0] passes exactly when it is inside
    the window. *)
Lemma hasValidTimestamp_number window now body t :
  get_field "timestamp" body = JsNum (Num t) ->
  t <> 0 ->
  hasValidTimestamp window now body = (now - window <? t).
Proof.
  intros H Ht. unfold hasValidTimestamp. rewrite H. simpl.
  destruct (Z.eqb_spec t 0); [ contradiction | reflexivity ].
Qed.

Lemma hasValidTimestamp_stale window now body t :
  get_field "timestamp" body = JsNum (Num t) ->
  t <> 0 ->
  stale window now t ->
  hasValidTimestamp window now body = false.
Proof.
  intros H Ht Hs. rewrite (hasValidTimestamp_number _ _ _ t H Ht).
  apply Z.ltb_ge. exact Hs.
Qed.

(** [NaN] is a number and is falsy: it passes too. *)
Lemma hasValidTimestamp_NaN window now :
  hasValidTimestamp window now [("timestamp"%string, JsNum NaN)] = true.
Proof. reflexivity. Qed.

(** C8, at the input where the code leaves it.  The numeric timestamp [0],
    the epoch itself, is older than the window at any time later than one
    window after the epoch, and [hasValidTimestamp] accepts it:
    [!requestBody.timestamp] is true of [0]. *)
Theorem hasValidTimestamp_accepts_epoch (window : Z) (elapsed : N) :
  let now := window + Z.of_N elapsed in
  let body := [("timestamp"%string, JsNum (Num 0))] in
  get_field "timestamp" body = JsNum (Num 0) /\
  stale window now 0 /\
  hasValidTimestamp window now body = true.
Proof.
  intros now body. split; [ reflexivity | split ].
  - unfold stale, now. lia.
  - reflexivity.
Qed.

(** [isByte32] looks at the length only, halved and rounded down. *)
Lemma isByte32_length h :
  isByte32 h = true <->
  (64 <= String.length (trimLeading0x h) <= 65)%nat.
Proof.
  unfold isByte32, Buffer_byteLength_hex.
  rewrite Nat.eqb_eq, Nat.div2_div.
  split; intros H.
  - pose proof (Nat.div_mod_eq (String.length (trimLeading0x h)) 2) as E.
    pose proof (Nat.mod_upper_bound (String.length (trimLeading0x h)) 2) as B.
    lia.
  - destruct H as [Hlo Hhi].
    assert (Hcase : String.length (trimLeading0x h) = 64%nat
                    \/ String.length (trimLeading0x h) = 65%nat) by lia.
    destruct Hcase as [-> | ->]; reflexivity.
Qed.

(** C10. The 32-byte check is decided by [floor(length / 2) = 32], where
    [length] counts the characters left after a leading [0x] is trimmed and
    the characters themselves are not looked at.  So every value with 65
    characters after its [0x] is accepted by [isByte32], by
    [hasValidPhoneNumberHash] and by [phoneNumberHashIsValidIfExists]; and
    there is one made of 65 hexadecimal characters, an odd length and so not
    32 bytes of well-formed hex. *)
Theorem odd_length_hash_accepted :
  (forall hashedData : string,
     isByte32 hashedData
     = Nat.eqb (String.length (trimLeading0x hashedData) / 2) 32) /\
  (forall hashedPhoneNumber : string,
     String.length (trimLeading0x hashedPhoneNumber) = 65%nat ->
     let body := [("hashedPhoneNumber"%string, JsString hashedPhoneNumber)] in
     isByte32 hashedPhoneNumber = true /\
     hasValidPhoneNumberHash body = Some (JsBool true) /\
     phoneNumberHashIsValidIfExists body = Some true) /\
  exists hashedPhoneNumber : string,
    let body := [("hashedPhoneNumber"%string, JsString hashedPhoneNumber)] in
    String.length (trimLeading0x hashedPhoneNumber) = 65%nat /\
    all_hex (trimLeading0x hashedPhoneNumber) = true /\
    Nat.odd (String.length (trimLeading0x hashedPhoneNumber)) = true /\
    Buffer_byteLength_hex (trimLeading0x hashedPhoneNumber) = 32%nat /\
    isByte32 hashedPhoneNumber = true /\
    hasValidPhoneNumberHash body = Some (JsBool true) /\
    phoneNumberHashIsValidIfExists body = Some true.
Proof.
  split; [ | split ].
  - intros h. unfold isByte32, Buffer_byteLength_hex.
    rewrite Nat.div2_div. reflexivity.
  - intros h Hlen body.
    assert (Hb : isByte32 h = true).
    { unfold isByte32, Buffer_byteLength_hex. rewrite Hlen. reflexivity. }
    assert (Ht : truthy (JsString h) = true).
    { destruct h; [ discriminate Hlen | reflexivity ]. }
    unfold body, hasValidPhoneNumberHash, phoneNumberHashIsValidIfExists.
    cbn [get_field]. rewrite String.eqb_refl, Ht. simpl. rewrite Hb.
    repeat split; reflexivity.
  - exists odd_hash. repeat split; reflexivity.
Qed.

End InputValidationFacts.

(** ** The contract at work *)

(** The scenario of the specification: limit 10, 5 units at price 2.  The
    call succeeds, the fee is 10, the counter goes from 7 to 12, and the
    lock is free again. *)
Example scenario_success :
  transact (Demo.request Demo.admin 5) Demo.idle Demo.honest =
    mkOutcome Success
      (mkState Demo.admin true 50 false 10 [AttestationSubsidised Demo.wallet 10])
      (Demo.mkWorld 12 2 true)
      (calls (transact (Demo.request Demo.admin 5) Demo.idle Demo.honest))
  /\ List.length (calls (transact (Demo.request Demo.admin 5) Demo.idle Demo.honest))
     = 15%nat.
Proof. split; reflexivity. Qed.

(** The scenario at the boundary: 10 units against a limit of 10. *)
Example scenario_boundary :
  transact (Demo.request Demo.admin 10) Demo.idle Demo.honest =
    mkOutcome (Failed LimitExceeded) Demo.idle Demo.honest [].
Proof. reflexivity. Qed.

Lemma counter_delta_witness :
  UInt256.in_range 5 /\
  exists usageBefore usageAfter totalFee,
    usage Demo.env Demo.idle Demo.identifier Demo.wallet Demo.honest = Some usageBefore /\
    usage Demo.env Demo.idle Demo.identifier Demo.wallet
      (world_after (transact (Demo.request Demo.admin 5) Demo.idle Demo.honest))
      = Some usageAfter /\
    UInt256.sub usageAfter usageBefore = 5 /\
    (usageBefore + 5 < UInt256.modulus -> usageAfter - usageBefore = 5) /\
    events (state_after (transact (Demo.request Demo.admin 5) Demo.idle Demo.honest))
      = events Demo.idle ++ [AttestationSubsidised Demo.wallet totalFee].
Proof.
  assert (Hn : UInt256.in_range 5) by (split; reflexivity || discriminate).
  split; [ exact Hn | ].
  apply (proj1 (counter_delta Demo.env Demo.admin Demo.wallet Demo.identifier 5
                  Demo.sig_v Demo.sig_r Demo.sig_s Demo.idle Demo.honest Hn)).
  reflexivity.
Defined.

(** The same request when the attestations contract does not count it:
    every step goes through, the counter stays at 7, and the call aborts. *)
Example scenario_silent_metering :
  transact (Demo.request Demo.admin 5) Demo.idle Demo.silent =
    mkOutcome (Failed InvariantViolation) Demo.idle Demo.silent
      (calls (transact (Demo.request Demo.admin 5) Demo.idle Demo.honest)).
Proof. reflexivity. Qed.

(** C1, at the input where the code leaves it.  The check of line 104 adds
    without SafeMath.  With a limit of [2^256 - 1] and a price of 1, the
    owner asks for [2^256 - 3] units and the counter reads 5 before the
    chain and 2 after it: [5 + (2^256 - 3)] wraps to 2, the check passes, the
    call returns success and emits its event, although the counter went
    back by 3 and the difference is not the request. *)
Theorem counter_check_wraps :
  let st := mkState Demo.admin true 50 false UInt256.max_value [] in
  let w := Demo.mkWorld 5 1 true in
  let n := UInt256.modulus - 3 in
  let out := transact (Demo.request Demo.admin n) st w in
  UInt256.in_range n /\
  usage Demo.env st Demo.identifier Demo.wallet w = Some 5 /\
  usage Demo.env st Demo.identifier Demo.wallet (world_after out) = Some 2 /\
  2 - 5 <> n /\
  UInt256.add 5 n = 2 /\
  status out = Success /\
  events (state_after out) = [AttestationSubsidised Demo.wallet n].
Proof.
  repeat split; try reflexivity; discriminate.
Qed.

(** A stranger is turned away at the owner gate. *)
Lemma request_only_owner_witness :
  Demo.stranger <> owner Demo.idle /\
  transact (Demo.request Demo.stranger 5) Demo.idle Demo.honest
    = mkOutcome (Failed Unauthorized) Demo.idle Demo.honest [].
Proof.
  assert (H : Demo.stranger <> owner Demo.idle) by (vm_compute; discriminate).
  split; [ exact H | ].
  apply (request_only_owner Demo.env Demo.stranger Demo.wallet Demo.identifier 5
           Demo.sig_v Demo.sig_r Demo.sig_s Demo.idle Demo.honest H).
Defined.



(** C3 fails on the code: 10 units against a limit of 10, asked by a
    stranger, and asked by the owner with a single [v]; neither failure is
    [LimitExceeded]. *)
Lemma over_limit_counterexample :
  maxSubsidisedAttestations Demo.idle <= 10 /\
  status (transact (Demo.request Demo.stranger 10) Demo.idle Demo.honest)
    = Failed Unauthorized /\
  status (transact (Demo.request Demo.stranger 10) Demo.idle Demo.honest)
    <> Failed LimitExceeded /\
  status (transact (Demo.malformed_request Demo.admin 10) Demo.idle Demo.honest)
    = Failed MalformedRequest /\
  status (transact (Demo.malformed_request Demo.admin 10) Demo.idle Demo.honest)
    <> Failed LimitExceeded.
Proof.
  repeat split; try reflexivity; try discriminate.
Qed.

(** At the limit exactly, the owner's well-formed request is
    [LimitExceeded], with no external call. *)
Lemma limit_is_exclusive_witness :
  maxSubsidisedAttestations Demo.idle <= 10 /\
  Demo.admin = owner Demo.idle /\ locked Demo.idle = false /\
  transact (Demo.request Demo.admin 10) Demo.idle Demo.honest
    = mkOutcome (Failed LimitExceeded) Demo.idle Demo.honest [].
Proof.
  assert (Hge : maxSubsidisedAttestations Demo.idle <= 10) by (vm_compute; discriminate).
  assert (Ho : Demo.admin = owner Demo.idle) by reflexivity.
  assert (Hl : locked Demo.idle = false) by reflexivity.
  split; [ exact Hge | split; [ exact Ho | split; [ exact Hl | ] ] ].
  exact (proj2 (proj2 (proj2 (proj2
    (limit_is_exclusive Demo.env Demo.admin Demo.wallet Demo.identifier 10
       Demo.sig_v Demo.sig_r Demo.sig_s Demo.idle Demo.honest) Hge))) Ho Hl).
Defined.



(** Price 2, 5 units: the fee is 10. *)
Lemma total_fee_witness :
  UInt256.in_range 5 /\
  unitPrice Demo.env Demo.idle Demo.honest = Some 2 /\
  exists l,
    calculateTotalFee Demo.env 5 Demo.idle Demo.honest =
      (l, if 2 * 5 <? UInt256.modulus then Ok (2 * 5) Demo.idle Demo.honest
          else Revert FeeOverflow).
Proof.
  assert (Hn : UInt256.in_range 5) by (split; reflexivity || discriminate).
  assert (Hp : unitPrice Demo.env Demo.idle Demo.honest = Some 2) by reflexivity.
  split; [ exact Hn | split; [ exact Hp | ] ].
  exact (proj1 (total_fee_is_price_times_units Demo.env 5 Demo.idle Demo.honest 2 Hn Hp)).
Defined.

(** Price 2, [2^255] units: the product is [2^256], and the call fails. *)
Example total_fee_overflow :
  exists l,
    calculateTotalFee Demo.env (2 ^ 255) Demo.idle Demo.honest = (l, Revert FeeOverflow).
Proof. eexists. reflexivity. Qed.

(** The owner sets the limit to 20; a stranger cannot; nobody sets it to 0. *)
Lemma setMaxSubsidisedAttestations_witness :
  Demo.admin = owner Demo.idle /\ 0 < 20 /\
  status (transact (setMaxSubsidisedAttestations Demo.admin 20) Demo.idle Demo.honest)
    = Success /\
  maxSubsidisedAttestations
    (state_after (transact (setMaxSubsidisedAttestations Demo.admin 20)
                    Demo.idle Demo.honest)) = 20 /\
  events
    (state_after (transact (setMaxSubsidisedAttestations Demo.admin 20)
                    Demo.idle Demo.honest))
    = events Demo.idle ++ [MaxSubsidisedAttestationsSet 20] /\
  owner
    (state_after (transact (setMaxSubsidisedAttestations Demo.admin 20)
                    Demo.idle Demo.honest)) = owner Demo.idle.
Proof.
  assert (Ho : Demo.admin = owner Demo.idle) by reflexivity.
  assert (Hpos : 0 < 20) by reflexivity.
  split; [ exact Ho | split; [ exact Hpos | ] ].
  exact (proj1 (proj2 (proj2
    (setMaxSubsidisedAttestations_cases Demo.admin 20 Demo.idle Demo.honest))) Ho Hpos).
Defined.

(** The state [initialize] leaves is reachable, and its limit positive. *)
Lemma limit_always_positive_witness :
  reachable Demo.env
    (state_after (transact (initialize Demo.admin 50 10) Demo.fresh Demo.honest)) /\
  0 < maxSubsidisedAttestations
        (state_after (transact (initialize Demo.admin 50 10) Demo.fresh Demo.honest)).
Proof.
  assert (Hr : reachable Demo.env
    (state_after (transact (initialize Demo.admin 50 10) Demo.fresh Demo.honest))).
  { apply reachable_init; [ split; reflexivity | reflexivity ]. }
  split; [ exact Hr | ].
  exact (proj1 (proj2 (limit_always_positive Demo.env)) _ Hr).
Defined.

(** * Further properties of the contract *)

(** Case analysis on every external call of a run. *)
Ltac destruct_calls H :=
  repeat match type of H with
  | context [match ?x with _ => _ end] =>
      lazymatch x with
      | context [match _ with _ => _ end] => fail
      | _ => destruct x eqn:?; simpl in H
      end
  end.


Section Downstream.

Context {World : Type} (env : Env World).

(** The state-changing calls of the body, as far as it got: which
    contracts they went to, with what, and in which world. *)
Lemma body_trace wallet identifier n v r s st w l res :
  requestAttestationsWithSubsidy_body env wallet identifier n v r s st w = (l, res) ->
  (filter is_mutating l = [] /\ reverted res) \/
  exists token att price fee,
    getAddressForOrDie env (registry st) STABLE_TOKEN_REGISTRY_ID w = Some token /\
    getAddressForOrDie env (registry st) ATTESTATIONS_REGISTRY_ID w = Some att /\
    unitPrice env st w = Some price /\
    SafeMath_mul price n = inr fee /\
    let approve := approve_call wallet token att fee v r s in
    let pay := CallTransfer token wallet fee in
    (filter is_mutating l = [approve] /\ perform env approve w = None /\ reverted res) \/
    exists w1,
      perform env approve w = Some w1 /\
      ((filter is_mutating l = [approve; pay] /\ reverted res) \/
       exists w2 reg' token' att',
         perform env pay w1 = Some w2 /\
         getAddressForOrDie env reg' STABLE_TOKEN_REGISTRY_ID w2 = Some token' /\
         getAddressForOrDie env reg' ATTESTATIONS_REGISTRY_ID w2 = Some att' /\
         let request := request_call wallet att' token' identifier n v r s in
         filter is_mutating l = [approve; pay; request] /\
         match res with
         | Ok _ st' w' =>
             perform env request w2 = Some w' /\
             st' = add_event (AttestationSubsidised wallet fee) st
         | Revert _ => True
         end).
Proof.
  intros H.
  destruct (two_signatures v r s) eqn:Hwf.
  2: { rewrite body_malformed in H by assumption. inversion H; subst.
       left. split; [ reflexivity | exact I ]. }
  rewrite body_well_formed in H by assumption.
  destruct (checkWithinLimit n st).
  2: { inversion H; subst. left. split; [ reflexivity | exact I ]. }
  unfold two_signatures in Hwf.
  destruct v as [ | v0 [ | v1 [ | ? ? ] ] ]; try discriminate Hwf.
  destruct r as [ | r0 [ | r1 [ | ? ? ] ] ]; try discriminate Hwf.
  destruct s as [ | s0 [ | s1 [ | ? ? ] ] ]; try discriminate Hwf.
  clear Hwf.
  unfold getAttestationRequests, _requestAttestationsWithSubsidy, calculateTotalFee,
    metaApproveCUSD, metaRequestAttestations, getStableToken, getAttestations in H.
  unfold bind, gets, staticcall, extcall, index, lift_sum, ret, revert, require, emit,
    modify, option_map in H.
  simpl in H.
  destruct_calls H.
  all: inversion H; subst; clear H; simpl.
  all: repeat match goal with
       | E : Some _ = Some _ |- _ => injection E as E; subst
       end.
  all: try solve [ left; split; [ reflexivity | exact I ] ].
  all: right.
  all: unfold approve_call, request_call; simpl.
  all: match goal with
       | Hs : getAddressForOrDie env _ STABLE_TOKEN_REGISTRY_ID ?w0 = Some ?token,
         Ha : getAddressForOrDie env _ ATTESTATIONS_REGISTRY_ID ?w0 = Some ?att,
         Hf : getAttestationRequestFee env ?att ?token ?w0 = Some _,
         Hm : SafeMath_mul ?price _ = inr ?fee |- _ =>
           exists token, att, price, fee;
           split; [ first [ exact Hs | reflexivity ] | ];
           split; [ first [ exact Ha | reflexivity ] | ];
           split; [ unfold unitPrice; rewrite ?Hs, ?Ha, Hf; reflexivity | ];
           split; [ exact Hm | ]
       end.
  all: try solve [ left; repeat split; (reflexivity || eassumption) ].
  all: right; eexists; (split; [ eassumption | ]).
  all: try solve [ left; split; [ reflexivity | exact I ] ].
  all: right.
  all: match goal with
       | Ht : transfer env _ _ _ _ = Some (_, ?w2) |- _ =>
           exists w2; do 3 eexists;
           split; [ rewrite Ht; reflexivity | ]
       end.
  all: (split; [ eassumption | ]); (split; [ eassumption | ]).
  all: (split; [ reflexivity | ]).
  all: try exact I.
  split; [ eassumption | reflexivity ].
Qed.

(** X1. The state-changing downstream calls of one call, whatever its
    outcome, are a prefix of three, each made at most once and in this
    order (a call that reverted counts as attempted).  First the approval,
    through the meta-wallet with the first signature, sent to the stable
    token the registry names when the call starts, of the fee for the
    attestations contract it names then; the fee is the checked product of
    the quoted price and the units.  Then the transfer of that fee to the
    meta-wallet, on the same stable token, in the world the approval left.
    Then the request, through the meta-wallet with the second signature,
    sent to the attestations contract and naming the stable token that one
    registry gives in the world the transfer left.  A call that stopped
    earlier did not succeed; a call that succeeds made all three, its world
    is the one the request left and its event reports that fee. *)
Theorem downstream_calls_in_order sender wallet identifier n v r s st w :
  let out :=
    transact (requestAttestationsWithSubsidy env sender wallet identifier n v r s) st w in
  let log := filter is_mutating (calls out) in
  (log = [] /\ status out <> Success) \/
  exists token att price fee,
    getAddressForOrDie env (registry st) STABLE_TOKEN_REGISTRY_ID w = Some token /\
    getAddressForOrDie env (registry st) ATTESTATIONS_REGISTRY_ID w = Some att /\
    unitPrice env st w = Some price /\
    SafeMath_mul price n = inr fee /\
    let approve := approve_call wallet token att fee v r s in
    let pay := CallTransfer token wallet fee in
    (log = [approve] /\ perform env approve w = None /\ status out <> Success) \/
    exists w1,
      perform env approve w = Some w1 /\
      ((log = [approve; pay] /\ status out <> Success) \/
       exists w2 reg' token' att',
         perform env pay w1 = Some w2 /\
         getAddressForOrDie env reg' STABLE_TOKEN_REGISTRY_ID w2 = Some token' /\
         getAddressForOrDie env reg' ATTESTATIONS_REGISTRY_ID w2 = Some att' /\
         let request := request_call wallet att' token' identifier n v r s in
         log = [approve; pay; request] /\
         (status out = Success ->
            perform env request w2 = Some (world_after out) /\
            events (state_after out)
            = events st ++ [AttestationSubsidised wallet fee])).
Proof.
  intros out log. subst log out. rewrite request_run.
  destruct (sender =? owner st); [ | left; split; [ reflexivity | discriminate ] ].
  destruct (locked st); [ left; split; [ reflexivity | discriminate ] | ].
  destruct (requestAttestationsWithSubsidy_body env wallet identifier n v r s
              (set_locked true st) w) as [l res] eqn:Eb.
  apply body_trace in Eb.
  change (registry (set_locked true st)) with (registry st) in Eb.
  change (unitPrice env (set_locked true st)) with (unitPrice env st) in Eb.
  destruct Eb as [[Hl Hr] | (token & att & price & fee & Ht & Ha & Hp & Hm & Eb)].
  { left. destruct res as [[] st' w' | e]; [ contradiction | ].
    split; [ exact Hl | discriminate ]. }
  right. exists token, att, price, fee.
  split; [ exact Ht | ]. split; [ exact Ha | ]. split; [ exact Hp | ].
  split; [ exact Hm | ].
  cbv zeta in Eb |- *.
  destruct Eb as [(Hl & Hnone & Hr) | (w1 & Hw1 & Eb)].
  { left. destruct res as [[] st' w' | e]; [ contradiction | ].
    split; [ exact Hl | ]. split; [ exact Hnone | discriminate ]. }
  right. exists w1. split; [ exact Hw1 | ].
  destruct Eb as [[Hl Hr] | (w2 & reg' & token' & att' & Hw2 & Ht' & Ha' & Hl & Hres)].
  { left. destruct res as [[] st' w' | e]; [ contradiction | ].
    split; [ exact Hl | discriminate ]. }
  right. exists w2, reg', token', att'.
  split; [ exact Hw2 | ]. split; [ exact Ht' | ]. split; [ exact Ha' | ].
  destruct res as [[] st' w' | e]; simpl.
  - destruct Hres as [Hw' ->]. split; [ exact Hl | ].
    intros _. split; [ exact Hw' | reflexivity ].
  - split; [ exact Hl | discriminate ].
Qed.

(** Two continuations that agree give the same run. *)
Lemma bind_ext {A B} (m : M World A) (k1 k2 : A -> M World B) st w :
  (forall a st1 w1, k1 a st1 w1 = k2 a st1 w1) ->
  bind m k1 st w = bind m k2 st w.
Proof.
  intros H. unfold bind. destruct (m st w) as [l [a st1 w1 | e]]; [ | reflexivity ].
  rewrite H. reflexivity.
Qed.

(** A call whose result is dropped can return anything. *)
Lemma extcall_result_ignored {A B} c (f : World -> option (A * World)) (a0 : A)
  (k : M World B) st w :
  bind (extcall c (fun w => option_map (fun p => (a0, snd p)) (f w))) (fun _ => k) st w
  = bind (extcall c f) (fun _ => k) st w.
Proof.
  unfold bind, extcall. destruct (f w) as [[a w'] | ]; reflexivity.
Qed.

Lemma chain_transfer_result b wallet identifier n v r s st w :
  _requestAttestationsWithSubsidy (with_transfer_result b env) wallet identifier n v r s st w
  = _requestAttestationsWithSubsidy env wallet identifier n v r s st w.
Proof.
  unfold _requestAttestationsWithSubsidy.
  do 6 (apply bind_ext; intros).
  apply (extcall_result_ignored (CallTransfer a0 wallet a)
           (transfer env a0 wallet a) b).
Qed.

(** X2. The [bool] that [cUSD.transfer] returns is not looked at: the whole
    outcome of a call, log included, is the same whether the token answers
    [true] or [false]. *)
Theorem transfer_result_ignored b sender wallet identifier n v r s st w :
  transact (requestAttestationsWithSubsidy (with_transfer_result b env)
              sender wallet identifier n v r s) st w
  = transact (requestAttestationsWithSubsidy env sender wallet identifier n v r s) st w.
Proof.
  rewrite !request_run.
  destruct (sender =? owner st); [ | reflexivity ].
  destruct (locked st); [ reflexivity | ].
  assert (E : requestAttestationsWithSubsidy_body (with_transfer_result b env)
                wallet identifier n v r s (set_locked true st) w
              = requestAttestationsWithSubsidy_body env
                wallet identifier n v r s (set_locked true st) w).
  { destruct (two_signatures v r s) eqn:Hwf.
    - rewrite !body_well_formed by assumption.
      destruct (checkWithinLimit n (set_locked true st)); [ | reflexivity ].
      unfold bind at 1 5.
      change (getAttestationRequests (with_transfer_result b env))
        with (getAttestationRequests env).
      destruct (getAttestationRequests env identifier wallet (set_locked true st) w)
        as [la [before st1 w1 | e]]; [ | reflexivity ].
      unfold bind at 1 4.
      rewrite chain_transfer_result. reflexivity.
    - rewrite !body_malformed by assumption. reflexivity. }
  rewrite E. reflexivity.
Qed.

(** [SafeMath_mul] has one way to fail. *)
Lemma SafeMath_mul_error a b e : SafeMath_mul a b = inl e -> e = FeeOverflow.
Proof.
  unfold SafeMath_mul. destruct (a =? 0); [ discriminate | ].
  destruct (UInt256.mul a b / a =? b); [ discriminate | ].
  intros H. inversion H. reflexivity.
Qed.

(** The failures of the body past its gates. *)
Lemma body_failure wallet identifier n v r s st w l e :
  two_signatures v r s = true ->
  checkWithinLimit n st = true ->
  requestAttestationsWithSubsidy_body env wallet identifier n v r s st w = (l, Revert e) ->
  match e with
  | FeeOverflow =>
      filter is_mutating l = [] /\
      exists price, unitPrice env st w = Some price /\
                    SafeMath_mul price n = inl FeeOverflow
  | InvariantViolation => List.length (filter is_mutating l) = 3%nat
  | DownstreamFailure c => exists l', l = l' ++ [c]
  | _ => False
  end.
Proof.
  intros Hwf Hlim H.
  rewrite body_well_formed, Hlim in H by assumption.
  unfold two_signatures in Hwf.
  destruct v as [ | v0 [ | v1 [ | ? ? ] ] ]; try discriminate Hwf.
  destruct r as [ | r0 [ | r1 [ | ? ? ] ] ]; try discriminate Hwf.
  destruct s as [ | s0 [ | s1 [ | ? ? ] ] ]; try discriminate Hwf.
  unfold getAttestationRequests, _requestAttestationsWithSubsidy, calculateTotalFee,
    metaApproveCUSD, metaRequestAttestations, getStableToken, getAttestations in H.
  unfold bind, gets, staticcall, extcall, index, lift_sum, ret, revert, require, emit, modify in H.
  simpl in H.
  destruct_calls H.
  all: inversion H; subst; simpl.
  all: try match goal with
       | E : SafeMath_mul _ _ = inl ?e |- _ =>
           pose proof (SafeMath_mul_error _ _ _ E); subst e;
           split; [ reflexivity | ];
           eexists; split; [ | exact E ];
           unfold unitPrice;
           repeat match goal with
                  | Heq : _ = Some _ |- _ => rewrite Heq; clear Heq
                  end;
           reflexivity
       end.
  all: try reflexivity.
  all: try match goal with
       | |- exists l', ?L = l' ++ _ => exists (removelast L); reflexivity
       end.
Qed.

(** A fee that was computed is a checked product with the quoted price. *)
Lemma calculateTotalFee_inv n st w l fee st' w' :
  calculateTotalFee env n st w = (l, Ok fee st' w') ->
  exists price, unitPrice env st w = Some price /\ SafeMath_mul price n = inr fee.
Proof.
  unfold calculateTotalFee, getStableToken, getAttestations.
  unfold bind, gets, staticcall, lift_sum, ret, revert.
  intros H. destruct_calls H.
  all: inversion H; subst.
  eexists. split; [ | eassumption ].
  unfold unitPrice.
  repeat match goal with
         | Heq : _ = Some _ |- _ => rewrite Heq; clear Heq
         end.
  reflexivity.
Qed.

Lemma SafeMath_mul_zero a : SafeMath_mul a 0 = inr 0.
Proof.
  unfold SafeMath_mul, UInt256.mul.
  destruct (a =? 0); [ reflexivity | ].
  rewrite Z.mul_0_r. reflexivity.
Qed.

(** X4. The value in the [AttestationSubsidised] event of a successful call
    is the exact product of the requested units and the fee the attestations
    contract quoted for the stable token when the call started, and that
    product fits in 256 bits. *)
Theorem event_value_is_price_times_units sender wallet identifier n v r s st w :
  UInt256.in_range n ->
  let out :=
    transact (requestAttestationsWithSubsidy env sender wallet identifier n v r s) st w in
  status out = Success ->
  exists price,
    unitPrice env st w = Some price /\
    price * n < UInt256.modulus /\
    events (state_after out) = events st ++ [AttestationSubsidised wallet (price * n)].
Proof.
  intros Hn out. subst out. rewrite request_run.
  destruct (sender =? owner st); [ | discriminate ].
  destruct (locked st) eqn:Hl; [ discriminate | ].
  destruct (requestAttestationsWithSubsidy_body env wallet identifier n v r s
              (set_locked true st) w) as [l [[] st' w' | e]] eqn:E; [ | discriminate ].
  intros _. simpl.
  apply body_ok_inv in E as (_ & _ & _ & fee & _ & l1 & _ & Hc & _ & _ & ->).
  apply chain_fee in Hc as [l0 Hc].
  apply calculateTotalFee_inv in Hc as (price & Hp & Hm).
  change (unitPrice env (set_locked true st) w) with (unitPrice env st w) in Hp.
  assert (Rp : UInt256.in_range price).
  { unfold unitPrice in Hp.
    destruct (getAddressForOrDie env (registry st) ATTESTATIONS_REGISTRY_ID w);
      [ | discriminate ].
    destruct (getAddressForOrDie env (registry st) STABLE_TOKEN_REGISTRY_ID w);
      [ | discriminate ].
    destruct (getAttestationRequestFee env a a0 w); [ | discriminate ].
    inversion Hp. apply of_word_in_range. }
  rewrite SafeMath_mul_spec in Hm by assumption.
  destruct (Z.ltb_spec (price * n) UInt256.modulus); inversion Hm; subst.
  exists price. repeat split; assumption || reflexivity.
Qed.

Lemma unitPrice_in_range st w price :
  unitPrice env st w = Some price -> UInt256.in_range price.
Proof.
  unfold unitPrice. intros Hp.
  destruct (getAddressForOrDie env (registry st) ATTESTATIONS_REGISTRY_ID w);
    [ | discriminate ].
  destruct (getAddressForOrDie env (registry st) STABLE_TOKEN_REGISTRY_ID w);
    [ | discriminate ].
  destruct (getAttestationRequestFee env a a0 w); [ | discriminate ].
  inversion Hp. apply of_word_in_range.
Qed.

(** X5. Every failure is accounted for.  [Unauthorized], [MalformedRequest]
    and [LimitExceeded] are reported only for their own reason and before
    any external call; [FeeOverflow] only when the price times the units
    exceeds 256 bits, and before any state-changing call;
    [InvariantViolation] only after all three state-changing calls were
    made; a downstream failure names the last call attempted.  The call
    never fails with an index out of bounds or with an error of another
    entry point, and the guard's error can only meet the owner.  A call
    that succeeds came from the owner, with two signatures, below the
    limit. *)
Theorem failure_taxonomy sender wallet identifier n v r s st w :
  UInt256.in_range n ->
  let out :=
    transact (requestAttestationsWithSubsidy env sender wallet identifier n v r s) st w in
  match status out with
  | Success =>
      sender = owner st /\ two_signatures v r s = true /\
      n < maxSubsidisedAttestations st
  | Failed e => failure_explained env sender n v r s st w (calls out) e
  end.
Proof.
  intros Hn out. subst out. rewrite request_run.
  destruct (Z.eqb_spec sender (owner st)) as [Ho | Ho]; [ | simpl; auto ].
  destruct (locked st) eqn:Hl; [ simpl; auto | ].
  destruct (two_signatures v r s) eqn:Hwf.
  2: { rewrite body_malformed by assumption. simpl. auto. }
  destruct (checkWithinLimit n (set_locked true st)) eqn:Hlim.
  2: { rewrite body_well_formed, Hlim by assumption. simpl.
       unfold checkWithinLimit in Hlim. simpl in Hlim.
       apply Z.ltb_ge in Hlim. auto. }
  destruct (requestAttestationsWithSubsidy_body env wallet identifier n v r s
              (set_locked true st) w) as [l [[] st' w' | e]] eqn:E; simpl.
  - unfold checkWithinLimit in Hlim. simpl in Hlim. apply Z.ltb_lt in Hlim. auto.
  - pose proof (body_failure _ _ _ _ _ _ _ _ _ _ Hwf Hlim E) as H.
    destruct e; simpl; try contradiction; try assumption.
    destruct H as (Hf & price & Hp & Hm).
    change (unitPrice env (set_locked true st) w) with (unitPrice env st w) in Hp.
    split; [ assumption | ]. exists price. split; [ assumption | ].
    rewrite SafeMath_mul_spec in Hm
      by (assumption || apply (unitPrice_in_range _ _ _ Hp)).
    destruct (Z.ltb_spec (price * n) UInt256.modulus); [ discriminate | assumption ].
Qed.

(** X6. A request for zero units is not refused as such: it never fails
    with [FeeOverflow], and not with [LimitExceeded] once the limit is
    positive.  When it succeeds the fee in the event is 0 and the counter
    reads the same before and after. *)
Theorem zero_unit_request sender wallet identifier v r s st w :
  let out :=
    transact (requestAttestationsWithSubsidy env sender wallet identifier 0 v r s) st w in
  match status out with
  | Success =>
      exists u,
        usage env st identifier wallet w = Some u /\
        usage env st identifier wallet (world_after out) = Some u /\
        events (state_after out) = events st ++ [AttestationSubsidised wallet 0]
  | Failed e =>
      e <> FeeOverflow /\ (0 < maxSubsidisedAttestations st -> e <> LimitExceeded)
  end.
Proof.
  intros out. subst out. rewrite request_run.
  destruct (sender =? owner st); [ | simpl; split; intros; discriminate ].
  destruct (locked st) eqn:Hl; [ simpl; split; intros; discriminate | ].
  destruct (two_signatures v r s) eqn:Hwf.
  2: { rewrite body_malformed by assumption. simpl. split; intros; discriminate. }
  destruct (checkWithinLimit 0 (set_locked true st)) eqn:Hlim.
  2: { rewrite body_well_formed, Hlim by assumption. simpl.
       unfold checkWithinLimit in Hlim. simpl in Hlim. apply Z.ltb_ge in Hlim.
       split; [ discriminate | ]. intros Hpos. lia. }
  destruct (requestAttestationsWithSubsidy_body env wallet identifier 0 v r s
              (set_locked true st) w) as [l [[] st' w' | e]] eqn:E; simpl.
  - apply body_ok_inv in E as (_ & _ & before & fee & after & l1 & Hb & Hc & Ha & Hchk & ->).
    apply chain_fee in Hc as [l0 Hc].
    apply calculateTotalFee_inv in Hc as (price & _ & Hm).
    rewrite SafeMath_mul_zero in Hm. inversion Hm; subst fee.
    pose proof (usage_in_range env _ _ _ _ _ Hb) as Rb.
    unfold UInt256.add in Hchk. rewrite Z.add_0_r, Z.mod_small in Hchk by exact Rb.
    subst after.
    rewrite (usage_registry env (set_locked true st) st _ _ w eq_refl) in Hb.
    rewrite (usage_registry env (set_locked true st) st _ _ w' eq_refl) in Ha.
    exists before. repeat split; assumption || reflexivity.
  - pose proof (body_failure _ _ _ _ _ _ _ _ _ _ Hwf Hlim E) as H.
    destruct e; try contradiction; split; intros; try discriminate.
    destruct H as (_ & price & _ & Hm).
    rewrite SafeMath_mul_zero in Hm. discriminate.
Qed.

(** X7. [initialize] succeeds exactly on a contract not yet initialised,
    for a caller and a registry that are not the zero address and a
    positive limit; the caller is then the owner, and the three events are
    emitted in the order ownership, registry, limit.  Its two setters never
    stop it with [Unauthorized], although both are [onlyOwner]: ownership is
    transferred first.  A failure leaves the storage untouched, the
    ownership included. *)
Theorem initialize_cases sender reg n st (w : World) :
  let out := transact (initialize sender reg n) st w in
  match status out with
  | Success =>
      initialized st = false /\ sender <> 0 /\ reg <> 0 /\ 0 < n /\
      state_after out =
        mkState sender true reg (locked st) n
          (events st ++ [OwnershipTransferred (owner st) sender; RegistrySet reg;
                         MaxSubsidisedAttestationsSet n])
  | Failed e =>
      state_after out = st /\ calls out = [] /\
      e <> Unauthorized /\
      (e = AlreadyInitialized <-> initialized st = true) /\
      (e = InvalidLimit -> n <= 0)
  end /\
  (initialized st = false -> sender <> 0 -> reg <> 0 -> 0 < n ->
   status out = Success).
Proof.
  intros out. subst out. rewrite initialize_run.
  destruct (initialized st) eqn:Hi.
  { simpl. repeat split; intros; try discriminate; reflexivity. }
  destruct (Z.eqb_spec sender 0).
  { simpl. repeat split; intros; try discriminate; contradiction. }
  destruct (Z.eqb_spec reg 0).
  { simpl. repeat split; intros; try discriminate; contradiction. }
  destruct (Z.ltb_spec 0 n); simpl.
  - repeat split; assumption || reflexivity.
  - repeat split; intros; try discriminate; try assumption; lia.
Qed.

Lemma dispatch_keeps_initialized sender e st w :
  initialized st = true ->
  initialized (state_after (transact (dispatch env sender e) st w)) = true.
Proof.
  intros Hi. destruct e as [reg n | n | wallet identifier n v r s]; simpl.
  - rewrite initialize_run, Hi. assumption.
  - rewrite setMax_run.
    destruct (sender =? owner st); [ | assumption ].
    destruct (0 <? n); simpl; assumption.
  - rewrite request_run.
    destruct (sender =? owner st); [ | assumption ].
    destruct (locked st); [ assumption | ].
    destruct (requestAttestationsWithSubsidy_body env wallet identifier n v r s
                (set_locked true st) w) as [l [[] st' w' | err]] eqn:E;
      [ | assumption ].
    apply body_ok_inv in E as (_ & _ & _ & fee & _ & _ & _ & _ & _ & _ & ->).
    simpl. assumption.
Qed.

(** X8. From its initialization on the contract stays initialised, and a
    further [initialize], by anybody, fails with [AlreadyInitialized] and
    changes nothing. *)
Theorem initialize_only_once st :
  reachable env st ->
  initialized st = true /\
  forall sender reg n (w : World),
    transact (initialize sender reg n) st w
      = mkOutcome (Failed AlreadyInitialized) st w [].
Proof.
  intros Hreach.
  assert (Hi : initialized st = true).
  { induction Hreach as [st0 w sender reg n _ Hok | st w sender e _ IH].
    - revert Hok. rewrite initialize_run.
      destruct (initialized st0); [ discriminate | ].
      destruct (sender =? 0); [ discriminate | ].
      destruct (reg =? 0); [ discriminate | ].
      destruct (0 <? n); [ reflexivity | discriminate ].
    - apply dispatch_keeps_initialized. assumption. }
  split; [ assumption | ].
  intros sender reg n w. rewrite initialize_run, Hi. reflexivity.
Qed.

(** [LimitExceeded] is the verdict of the limit check and of nothing else. *)
Lemma limit_exceeded_iff sender wallet identifier n v r s st w :
  status (transact (requestAttestationsWithSubsidy env sender wallet identifier n v r s) st w)
    = Failed LimitExceeded <->
  sender = owner st /\ locked st = false /\ two_signatures v r s = true /\
  maxSubsidisedAttestations st <= n.
Proof.
  rewrite request_run.
  destruct (Z.eqb_spec sender (owner st)) as [Ho | Ho].
  2: { simpl. split; [ discriminate | intros [H _]; contradiction ]. }
  destruct (locked st) eqn:Hl.
  { simpl. split; [ discriminate | intros (_ & H & _); discriminate ]. }
  destruct (two_signatures v r s) eqn:Hwf.
  2: { rewrite body_malformed by assumption. simpl.
       split; [ discriminate | intros (_ & _ & H & _); discriminate ]. }
  destruct (checkWithinLimit n (set_locked true st)) eqn:Hlim.
  - assert (Hlt : n < maxSubsidisedAttestations st).
    { unfold checkWithinLimit in Hlim. simpl in Hlim. apply Z.ltb_lt. assumption. }
    destruct (requestAttestationsWithSubsidy_body env wallet identifier n v r s
                (set_locked true st) w) as [l [[] st' w' | e]] eqn:E; simpl.
    + split; [ discriminate | intros (_ & _ & _ & H); lia ].
    + pose proof (body_failure _ _ _ _ _ _ _ _ _ _ Hwf Hlim E) as H.
      split; [ | intros (_ & _ & _ & H'); lia ].
      intros H'. inversion H'; subst e. contradiction.
  - rewrite body_well_formed, Hlim by assumption. simpl.
    unfold checkWithinLimit in Hlim. simpl in Hlim. apply Z.ltb_ge in Hlim.
    split; auto.
Qed.

(** X9. A limit set by the owner is the one the next request is checked
    against: the owner's well-formed request then fails with
    [LimitExceeded] exactly when it asks for the new limit or more. *)
Theorem new_limit_takes_effect admin newLimit wallet identifier n v r s st
  (w w' : World) :
  admin = owner st -> 0 < newLimit ->
  locked st = false -> two_signatures v r s = true ->
  let st' := state_after (transact (setMaxSubsidisedAttestations admin newLimit) st w) in
  (status (transact (requestAttestationsWithSubsidy env admin wallet identifier n v r s) st' w')
     = Failed LimitExceeded <-> newLimit <= n).
Proof.
  intros Ho Hpos Hl Hwf st'. subst st'.
  rewrite limit_exceeded_iff, setMax_run.
  subst admin. rewrite Z.eqb_refl.
  destruct (Z.ltb_spec 0 newLimit); [ | lia ].
  simpl. rewrite Hl, Hwf. split.
  - intros (_ & _ & _ & H'). exact H'.
  - intros H'. repeat split; assumption || reflexivity.
Qed.

End Downstream.

(** * Properties of the QR code sagas *)

Module QRFacts.
Import QR.

Section Facts.

Variable toLowerCase : string -> string.
Variable QR_FAILED_INVALID_RECIPIENT : string.

#[local] Abbreviation secureSend := (handleSecureSend toLowerCase QR_FAILED_INVALID_RECIPIENT).

Lemma includes_In x xs : includes x xs = true <-> In x xs.
Proof.
  unfold includes. rewrite existsb_exists. split.
  - intros (y & Hy & E). apply String.eqb_eq in E. subst. assumption.
  - intros H. exists x. split; [ assumption | apply String.eqb_refl ].
Qed.

Lemma lookup_store_same e164 addresses book old :
  lookup e164 book = Some old ->
  lookup e164 (store e164 addresses book) = Some addresses.
Proof.
  induction book as [ | [k a] rest IH ]; simpl; [ discriminate | ].
  destruct (String.eqb k e164) eqn:E; simpl; rewrite E.
  - reflexivity.
  - exact IH.
Qed.

Lemma lookup_store_other e164 other addresses book :
  other <> e164 ->
  lookup other (store e164 addresses book) = lookup other book.
Proof.
  intros Hne. induction book as [ | [k a] rest IH ]; simpl; [ reflexivity | ].
  destruct (String.eqb k e164) eqn:E; simpl.
  - apply String.eqb_eq in E. subst k.
    destruct (String.eqb e164 other) eqn:E'; [ | reflexivity ].
    apply String.eqb_eq in E'. congruence.
  - rewrite IH. reflexivity.
Qed.

(** What a call that gets past its two [throw]s computes. *)
Lemma secureSend_run address book tx requester e164 possible :
  e164PhoneNumber (recipient tx) = Some e164 -> e164 <> ""%string ->
  lookup e164 book = Some possible ->
  exists book',
    lookup e164 book' = Some (after_push possible requester) /\
    (forall other, other <> e164 -> lookup other book' = lookup other book) /\
    secureSend address book tx requester =
      if includes (toLowerCase address) (map toLowerCase (after_push possible requester))
      then mkRun (Returned true)
             [Track send_secure_complete true None;
              Put (validateRecipientAddressSuccess e164 (toLowerCase address))] book'
      else mkRun (Returned false)
             [Track send_secure_incorrect true (Some QR_FAILED_INVALID_RECIPIENT);
              Put (showMessage QR_FAILED_INVALID_RECIPIENT)] book'.
Proof.
  intros He Hne Hl.
  unfold handleSecureSend, after_push. rewrite He.
  destruct (String.eqb_spec e164 ""); [ contradiction | ].
  rewrite Hl.
  destruct requester as [a | ].
  - destruct (present (Some a) && negb (includes a possible)) eqn:Hp.
    + exists (store e164 (possible ++ [a]) book).
      split; [ apply (lookup_store_same _ _ _ _ Hl) | ].
      split; [ intros; apply lookup_store_other; assumption | ].
      destruct (includes (toLowerCase address) (map toLowerCase (possible ++ [a])));
        reflexivity.
    + exists book. split; [ assumption | ]. split; [ reflexivity | ].
      destruct (includes (toLowerCase address) (map toLowerCase possible)); reflexivity.
  - exists book. split; [ assumption | ]. split; [ reflexivity | ].
    destruct (includes (toLowerCase address) (map toLowerCase possible)); reflexivity.
Qed.

(** The array after the [push] holds the candidates, and nothing else. *)
Lemma after_push_candidates possible requester a :
  In a (after_push possible requester) <-> In a (candidates possible requester).
Proof.
  unfold after_push, candidates, present.
  destruct requester as [q | ]; [ | reflexivity ].
  destruct (String.eqb_spec q ""); simpl; [ reflexivity | ].
  destruct (includes q possible) eqn:Hin; simpl; [ | reflexivity ].
  apply includes_In in Hin. rewrite in_app_iff. simpl.
  split; [ auto | ]. intros [H | [<- | []]]; assumption.
Qed.

Lemma matches_candidate address possible requester :
  includes (toLowerCase address) (map toLowerCase (after_push possible requester)) = true
  <-> exists a, In a (candidates possible requester)
                /\ toLowerCase a = toLowerCase address.
Proof.
  rewrite includes_In, in_map_iff. split.
  - intros (a & E & Hin). exists a. split; [ apply after_push_candidates | ]; assumption.
  - intros (a & Hin & E). exists a. split; [ | apply after_push_candidates ]; assumption.
Qed.

Lemma secure_send_accepts_candidates_aux address book tx requester e164 possible :
  e164PhoneNumber (recipient tx) = Some e164 -> e164 <> ""%string ->
  lookup e164 book = Some possible ->
  ((exists a, In a (candidates possible requester)
              /\ toLowerCase a = toLowerCase address) ->
   completion (secureSend address book tx requester) = Returned true).
Proof.
  intros He Hne Hl H.
  destruct (secureSend_run address book tx requester e164 possible He Hne Hl)
    as (book' & _ & _ & ->).
  apply matches_candidate in H. rewrite H. reflexivity.
Qed.

(** X10. Past its two [throw]s, [handleSecureSend] accepts a scan exactly
    when it is, letter case apart, one of the addresses listed for the
    recipient's number or the requester's address, and rejects it
    otherwise. *)
Theorem secure_send_accepts_candidates address book tx requester e164 possible :
  e164PhoneNumber (recipient tx) = Some e164 -> e164 <> ""%string ->
  lookup e164 book = Some possible ->
  (completion (secureSend address book tx requester) = Returned true <->
     exists a, In a (candidates possible requester)
               /\ toLowerCase a = toLowerCase address) /\
  (completion (secureSend address book tx requester) = Returned false <->
     ~ exists a, In a (candidates possible requester)
                 /\ toLowerCase a = toLowerCase address).
Proof.
  intros He Hne Hl.
  destruct (secureSend_run address book tx requester e164 possible He Hne Hl)
    as (book' & _ & _ & ->).
  rewrite <- matches_candidate.
  destruct (includes (toLowerCase address)
              (map toLowerCase (after_push possible requester))); simpl.
  - split; split; intros H; try reflexivity; try discriminate.
    exfalso. apply H. reflexivity.
  - split; split; intros H; try reflexivity; try discriminate.
Qed.

(** X11. The requester pushed by one scan stays in the map: whatever that
    scan returned, the array of the number now ends with the requester
    (unless it held it already), a later scan of the requester's address
    is accepted without any requester being passed, and pushing the same
    requester again adds nothing. *)
Theorem requester_stays_listed address1 address2 book tx requester e164 possible :
  e164PhoneNumber (recipient tx) = Some e164 -> e164 <> ""%string ->
  lookup e164 book = Some possible ->
  requester <> ""%string ->
  toLowerCase address2 = toLowerCase requester ->
  let first := secureSend address1 book tx (Some requester) in
  lookup e164 (book_after first)
    = Some (if includes requester possible then possible else possible ++ [requester]) /\
  completion (secureSend address2 (book_after first) tx None) = Returned true /\
  book_after (secureSend address2 (book_after first) tx (Some requester))
    = book_after first.
Proof.
  intros He Hne Hl Hr Hcase first.
  destruct (secureSend_run address1 book tx (Some requester) e164 possible He Hne Hl)
    as (book' & Hl' & _ & E).
  assert (Hb : book_after first = book').
  { subst first. rewrite E.
    destruct (includes (toLowerCase address1)
                (map toLowerCase (after_push possible (Some requester)))); reflexivity. }
  rewrite Hb. clear E Hb first.
  assert (Hpush : after_push possible (Some requester)
                  = if includes requester possible then possible
                    else possible ++ [requester]).
  { unfold after_push, present.
    destruct (String.eqb_spec requester ""); [ contradiction | ]. simpl.
    destruct (includes requester possible); reflexivity. }
  rewrite Hpush in Hl'.
  assert (Hin : In requester
                  (if includes requester possible then possible
                   else possible ++ [requester])).
  { destruct (includes requester possible) eqn:Hi.
    - apply includes_In. assumption.
    - apply in_app_iff. right. left. reflexivity. }
  split; [ assumption | split ].
  - apply (secure_send_accepts_candidates_aux address2 book' tx None e164 _ He Hne Hl').
    exists requester. split; [ exact Hin | symmetry; exact Hcase ].
  - unfold handleSecureSend. rewrite He.
    destruct (String.eqb_spec e164 ""); [ contradiction | ].
    rewrite Hl'.
    apply includes_In in Hin. rewrite Hin, andb_false_r.
    match goal with |- context [if ?c then _ else _] => destruct c end; reflexivity.
Qed.

Variable Json : Type.
Variable JSON_parse : string -> string + Json.
Variable qrDataFromJson : Json -> string + QrData.
Variables AddressToE164Number NumberToRecipient : Type.
Variable getRecipientFromAddress :
  string -> AddressToE164Number -> NumberToRecipient -> option CachedRecipient.

#[local] Abbreviation barcode :=
  (handleBarcode toLowerCase QR_FAILED_INVALID_RECIPIENT Json JSON_parse qrDataFromJson
     AddressToE164Number NumberToRecipient getRecipientFromAddress).

(** [handleSecureSend] never navigates. *)
Lemma secureSend_no_replace address book tx requester :
  filter is_replace (effects (secureSend address book tx requester)) = [].
Proof.
  unfold handleSecureSend.
  destruct (e164PhoneNumber (recipient tx)) as [e164 | ]; [ | reflexivity ].
  destruct (String.eqb e164 ""); [ reflexivity | ].
  destruct (lookup e164 book); [ | reflexivity ].
  match goal with |- context [if ?c then _ else _] => destruct c end; reflexivity.
Qed.

Lemma or_else_not_empty a b : b <> ""%string -> or_else a b <> ""%string.
Proof.
  intros Hb. unfold or_else. destruct a as [x | ]; [ | assumption ].
  destruct (String.eqb_spec x ""); assumption.
Qed.

(** X12. In secure-send mode a scan leads to a confirmation screen only,
    the one the caller asked for, with the transaction data it was given
    and not with anything read from the code, and only after
    [handleSecureSend] accepted the scanned address. *)
Theorem secure_scan_navigation data a2e cache book tx flag requester screen params :
  In (Replace screen params)
     (effects (barcode data a2e cache book (Some tx) flag requester)) ->
  screen = (if flag then PaymentRequestConfirmation else SendConfirmation) /\
  params = ConfirmationParams tx true /\
  completion (barcode data a2e cache book (Some tx) flag requester) = Returned tt /\
  exists json parsed,
    JSON_parse data = inr json /\ qrDataFromJson json = inr parsed /\
    completion (secureSend (qr_address parsed) book tx requester) = Returned true.
Proof.
  unfold handleBarcode.
  destruct (JSON_parse data) as [e | json] eqn:Ej.
  { simpl. intros [H | []]. discriminate. }
  destruct (qrDataFromJson json) as [report | parsed] eqn:Eq.
  { simpl. intros [H | []]. discriminate. }
  pose proof (secureSend_no_replace (qr_address parsed) book tx requester) as Hno.
  destruct (secureSend (qr_address parsed) book tx requester) as [c eff b] eqn:E.
  simpl in *.
  assert (Hnot : ~ In (Replace screen params) eff).
  { intros Hin.
    assert (Hf : In (Replace screen params) (filter is_replace eff))
      by (apply filter_In; split; [ assumption | reflexivity ]).
    rewrite Hno in Hf. destruct Hf. }
  destruct c as [[ | ] | message]; simpl; intros Hin.
  - apply in_app_iff in Hin as [Hin | [Hin | []]]; [ contradiction | ].
    destruct flag; inversion Hin; subst;
      (split; [ reflexivity | split; [ reflexivity | split; [ reflexivity | ] ] ]);
      exists json, parsed;
      (split; [ reflexivity | split; [ assumption | rewrite E; reflexivity ] ]).
  - contradiction.
  - contradiction.
Qed.

(** X13. Without secure-send data a scan never throws and never touches
    the address map.  A code that decodes leads to the amount screen, for a
    recipient with the scanned address, the scanned phone number as its
    display id, and a name that is never empty: the code's [displayName]
    when it has a non-empty one, and "QR Code" when it has none or an empty
    one.  A code that does not decode leads nowhere. *)
Theorem plain_scan data a2e cache book flag requester :
  let run := barcode data a2e cache book None flag requester in
  completion run = Returned tt /\
  book_after run = book /\
  match JSON_parse data with
  | inl _ => filter is_replace (effects run) = []
  | inr json =>
      match qrDataFromJson json with
      | inl report => effects run = [Put (showMessage report)]
      | inr parsed =>
          exists recipient,
            effects run =
              [Replace SendAmount
                 (SendAmountParams recipient true flag
                    (qr_currencyCode parsed) (qr_amount parsed))] /\
            r_address recipient = qr_address parsed /\
            r_displayId recipient = qr_e164PhoneNumber parsed /\
            r_displayName recipient <> ""%string /\
            (forall name, qr_displayName parsed = Some name -> name <> ""%string ->
                          r_displayName recipient = name) /\
            (qr_displayName parsed = None ->
               r_displayName recipient = "QR Code"%string) /\
            (qr_displayName parsed = Some ""%string ->
               r_displayName recipient = "QR Code"%string)
      end
  end.
Proof.
  unfold handleBarcode.
  destruct (JSON_parse data) as [e | json]; [ simpl; auto | ].
  destruct (qrDataFromJson json) as [report | parsed]; [ simpl; auto | ].
  simpl. repeat split.
  eexists. split; [ reflexivity | ]. simpl. repeat split.
  - apply or_else_not_empty. discriminate.
  - intros name -> Hname. simpl.
    destruct (String.eqb_spec name ""); [ contradiction | reflexivity ].
  - intros ->. reflexivity.
  - intros ->. reflexivity.
Qed.

(** X14. Whatever the mode, a scan navigates at most once, as the last
    thing it does, and not at all when it throws. *)
Theorem scan_navigates_at_most_once data a2e cache book tx flag requester :
  let run := barcode data a2e cache book tx flag requester in
  filter is_replace (effects run) = [] \/
  (completion run = Returned tt /\
   exists before screen params,
     effects run = before ++ [Replace screen params] /\
     filter is_replace before = []).
Proof.
  unfold handleBarcode.
  destruct (JSON_parse data) as [e | json]; [ left; reflexivity | ].
  destruct (qrDataFromJson json) as [report | parsed]; [ left; reflexivity | ].
  destruct tx as [tx | ].
  - pose proof (secureSend_no_replace (qr_address parsed) book tx requester) as Hno.
    destruct (secureSend (qr_address parsed) book tx requester) as [c eff b].
    simpl in *.
    destruct c as [[ | ] | message]; simpl; [ | left; assumption | left; assumption ].
    right. split; [ reflexivity | ].
    destruct flag; do 3 eexists; (split; [ reflexivity | assumption ]).
  - simpl. right. split; [ reflexivity | ].
    exists []. do 2 eexists. split; reflexivity.
Qed.

End Facts.
End QRFacts.

(** * Further properties of the request validation *)

Module RequestParamsFacts.

Import InputValidation RequestParams.

(** X15. Validity only decays with time: a body whose timestamp passes at
    some time passed at every earlier time, whatever the timestamp is. *)
Theorem hasValidTimestamp_decays window now later body :
  now <= later ->
  hasValidTimestamp window later body = true ->
  hasValidTimestamp window now body = true.
Proof.
  unfold hasValidTimestamp. intros Hle.
  destruct (get_field "timestamp" body) as [ | | b | [ | t] | s | items | fields ];
    simpl; try (intros H; exact H).
  destruct (t =? 0); simpl; [ reflexivity | ].
  rewrite !Z.ltb_lt. lia.
Qed.

(** X16. Only numbers are compared with the clock.  A timestamp of any
    other type is judged by its truthiness alone, at all times: absent,
    [null], [false] and the empty string pass, a non-empty string (a
    number sent in quotes, say), [true], an array or an object fail. *)
Theorem hasValidTimestamp_not_a_number window now body :
  is_number (get_field "timestamp" body) = false ->
  hasValidTimestamp window now body = negb (truthy (get_field "timestamp" body)).
Proof.
  unfold hasValidTimestamp. intros H. rewrite H. simpl.
  apply orb_false_r.
Qed.

(** X17. The two hash predicates differ on a missing hash only.
    [phoneNumberHashIsValidIfExists] accepts exactly when the hash is
    falsy or [hasValidPhoneNumberHash] returns [true]; a missing hash makes
    [hasValidPhoneNumberHash] return the falsy value itself; and one throws
    exactly when the other does. *)
Theorem hash_predicates_agree body :
  let h := get_field "hashedPhoneNumber" body in
  (phoneNumberHashIsValidIfExists body = Some true <->
     truthy h = false \/ hasValidPhoneNumberHash body = Some (JsBool true)) /\
  (truthy h = false -> hasValidPhoneNumberHash body = Some h) /\
  (phoneNumberHashIsValidIfExists body = None <-> hasValidPhoneNumberHash body = None).
Proof.
  unfold phoneNumberHashIsValidIfExists, hasValidPhoneNumberHash. simpl.
  destruct (truthy (get_field "hashedPhoneNumber" body)) eqn:Ht; simpl.
  - destruct (isByte32_any (get_field "hashedPhoneNumber" body)) as [[ | ] | ]; simpl.
    + repeat split; intros; try discriminate; auto.
    + repeat split; intros; try discriminate.
      destruct H as [H | H]; discriminate.
    + repeat split; intros; try discriminate; try reflexivity.
      destruct H as [H | H]; discriminate.
  - repeat split; intros; try discriminate; auto.
Qed.

(** X18. [hasValidContractPhoneNumbersParam] accepts exactly the arrays, the
    empty one included: its result is truthy if and only if
    [contactPhoneNumbers] is an array.  On a falsy field it returns the
    field itself, not a boolean. *)
Theorem contact_numbers_accepted_iff_array body :
  let x := get_field "contactPhoneNumbers" body in
  truthy (hasValidContractPhoneNumbersParam body) = isArray x /\
  (truthy x = false -> hasValidContractPhoneNumbersParam body = x) /\
  hasValidContractPhoneNumbersParam
    (("contactPhoneNumbers"%string, JsArray []) :: body) = JsBool true.
Proof.
  unfold hasValidContractPhoneNumbersParam. simpl.
  destruct (get_field "contactPhoneNumbers" body)
    as [ | | [ | ] | [ | t] | s | items | fields ]; simpl;
    try (destruct (t =? 0) eqn:E; simpl; rewrite ?E);
    try (destruct (String.eqb s "") eqn:E; simpl; rewrite ?E);
    repeat split; intros; try discriminate; reflexivity.
Qed.

End RequestParamsFacts.

(** * The further properties at work *)

(** The scenario of the specification once more: price 2, 5 units, an
    event of 10. *)
Lemma event_value_witness :
  UInt256.in_range 5 /\
  status (transact (Demo.request Demo.admin 5) Demo.idle Demo.honest) = Success /\
  exists price,
    unitPrice Demo.env Demo.idle Demo.honest = Some price /\
    price * 5 < UInt256.modulus /\
    events (state_after (transact (Demo.request Demo.admin 5) Demo.idle Demo.honest))
      = events Demo.idle ++ [AttestationSubsidised Demo.wallet (price * 5)].
Proof.
  assert (Hn : UInt256.in_range 5) by (split; reflexivity || discriminate).
  assert (Hs : status (transact (Demo.request Demo.admin 5) Demo.idle Demo.honest)
               = Success) by reflexivity.
  split; [ exact Hn | split; [ exact Hs | ] ].
  exact (event_value_is_price_times_units Demo.env Demo.admin Demo.wallet
           Demo.identifier 5 Demo.sig_v Demo.sig_r Demo.sig_s Demo.idle Demo.honest
           Hn Hs).
Defined.

(** The three state-changing calls of the scenario: 10 approved on the
    stable token for the attestations contract, 10 transferred to the
    meta-wallet on the stable token, 5 attestations requested. *)
Example scenario_success_calls :
  filter is_mutating (calls (transact (Demo.request Demo.admin 5) Demo.idle Demo.honest))
  = [approve_call Demo.wallet Demo.stableToken Demo.attestations 10
       Demo.sig_v Demo.sig_r Demo.sig_s;
     CallTransfer Demo.stableToken Demo.wallet 10;
     request_call Demo.wallet Demo.attestations Demo.stableToken Demo.identifier 5
       Demo.sig_v Demo.sig_r Demo.sig_s].
Proof. reflexivity. Qed.

(** An attestations contract that does not count: the call fails with
    [InvariantViolation], after its three state-changing calls. *)
Lemma failure_taxonomy_witness :
  UInt256.in_range 5 /\
  status (transact (Demo.request Demo.admin 5) Demo.idle Demo.silent)
    = Failed InvariantViolation /\
  List.length
    (filter is_mutating
       (calls (transact (Demo.request Demo.admin 5) Demo.idle Demo.silent))) = 3%nat.
Proof.
  assert (Hn : UInt256.in_range 5) by (split; reflexivity || discriminate).
  split; [ exact Hn | split; [ reflexivity | ] ].
  exact (failure_taxonomy Demo.env Demo.admin Demo.wallet Demo.identifier 5
           Demo.sig_v Demo.sig_r Demo.sig_s Demo.idle Demo.silent Hn).
Defined.

(** Once initialised, always initialised. *)
Lemma initialize_only_once_witness :
  reachable Demo.env
    (state_after (transact (initialize Demo.admin 50 10) Demo.fresh Demo.honest)) /\
  initialized
    (state_after (transact (initialize Demo.admin 50 10) Demo.fresh Demo.honest)) = true.
Proof.
  assert (Hr : reachable Demo.env
    (state_after (transact (initialize Demo.admin 50 10) Demo.fresh Demo.honest))).
  { apply reachable_init; [ split; reflexivity | reflexivity ]. }
  split; [ exact Hr | ].
  exact (proj1 (initialize_only_once Demo.env _ Hr)).
Defined.

(** The owner raises the limit to 20: 20 units are now what is too many. *)
Lemma new_limit_takes_effect_witness :
  Demo.admin = owner Demo.idle /\ 0 < 20 /\ locked Demo.idle = false /\
  two_signatures Demo.sig_v Demo.sig_r Demo.sig_s = true /\
  status
    (transact (Demo.request Demo.admin 20)
       (state_after (transact (setMaxSubsidisedAttestations Demo.admin 20)
                       Demo.idle Demo.honest))
       Demo.honest) = Failed LimitExceeded.
Proof.
  assert (Ho : Demo.admin = owner Demo.idle) by reflexivity.
  assert (Hpos : 0 < 20) by reflexivity.
  assert (Hl : locked Demo.idle = false) by reflexivity.
  assert (Hwf : two_signatures Demo.sig_v Demo.sig_r Demo.sig_s = true) by reflexivity.
  split; [ exact Ho | split; [ exact Hpos | split; [ exact Hl | split; [ exact Hwf | ] ] ] ].
  apply (proj2 (new_limit_takes_effect Demo.env Demo.admin 20 Demo.wallet
                  Demo.identifier 20 Demo.sig_v Demo.sig_r Demo.sig_s Demo.idle
                  Demo.honest Demo.honest Ho Hpos Hl Hwf)).
  discriminate.
Defined.

(** A listed address, scanned in capitals, is accepted. *)
Lemma secure_send_accepts_witness :
  QR.e164PhoneNumber (QR.recipient QRDemo.tx) = Some QRDemo.number /\
  QRDemo.number <> ""%string /\
  QR.lookup QRDemo.number QRDemo.book = Some ["0xAbC1"; "0xdef2"]%string /\
  QR.completion
    (QR.handleSecureSend QR.lower QRDemo.message "0xABC1" QRDemo.book QRDemo.tx None)
    = QR.Returned true.
Proof.
  assert (He : QR.e164PhoneNumber (QR.recipient QRDemo.tx) = Some QRDemo.number)
    by reflexivity.
  assert (Hne : QRDemo.number <> ""%string) by discriminate.
  assert (Hl : QR.lookup QRDemo.number QRDemo.book = Some ["0xAbC1"; "0xdef2"]%string)
    by reflexivity.
  split; [ exact He | split; [ exact Hne | split; [ exact Hl | ] ] ].
  apply (proj2 (proj1 (QRFacts.secure_send_accepts_candidates QR.lower QRDemo.message
                         "0xABC1" QRDemo.book QRDemo.tx None QRDemo.number _ He Hne Hl))).
  exists "0xAbC1"%string. split; [ left; reflexivity | reflexivity ].
Defined.

(** A wrong scan made with a requester leaves the requester in the map; the
    requester's address then passes without a requester. *)
Lemma requester_stays_listed_witness :
  QR.e164PhoneNumber (QR.recipient QRDemo.tx) = Some QRDemo.number /\
  QRDemo.number <> ""%string /\
  QR.lookup QRDemo.number QRDemo.book = Some ["0xAbC1"; "0xdef2"]%string /\
  QRDemo.requester <> ""%string /\
  QR.lower "0xbeef" = QR.lower QRDemo.requester /\
  QR.completion
    (QR.handleSecureSend QR.lower QRDemo.message "0x0000" QRDemo.book QRDemo.tx
       (Some QRDemo.requester)) = QR.Returned false /\
  QR.completion
    (QR.handleSecureSend QR.lower QRDemo.message "0xbeef"
       (QR.book_after
          (QR.handleSecureSend QR.lower QRDemo.message "0x0000" QRDemo.book QRDemo.tx
             (Some QRDemo.requester)))
       QRDemo.tx None) = QR.Returned true.
Proof.
  assert (He : QR.e164PhoneNumber (QR.recipient QRDemo.tx) = Some QRDemo.number)
    by reflexivity.
  assert (Hne : QRDemo.number <> ""%string) by discriminate.
  assert (Hl : QR.lookup QRDemo.number QRDemo.book = Some ["0xAbC1"; "0xdef2"]%string)
    by reflexivity.
  assert (Hr : QRDemo.requester <> ""%string) by discriminate.
  assert (Hcase : QR.lower "0xbeef" = QR.lower QRDemo.requester) by reflexivity.
  split; [ exact He | split; [ exact Hne | split; [ exact Hl | split; [ exact Hr | ] ] ] ].
  split; [ exact Hcase | split; [ reflexivity | ] ].
  exact (proj1 (proj2 (QRFacts.requester_stays_listed QR.lower QRDemo.message
                         "0x0000" "0xbeef" QRDemo.book QRDemo.tx QRDemo.requester
                         QRDemo.number _ He Hne Hl Hr Hcase))).
Defined.

(** A secure-send scan of a listed address goes to the confirmation
    screen. *)
Lemma secure_scan_navigation_witness :
  In (QR.Replace QR.SendConfirmation (QR.ConfirmationParams QRDemo.tx true))
     (QR.effects
        (QRDemo.handleBarcode "0xABC1" tt tt QRDemo.book (Some QRDemo.tx) false None)) /\
  QR.completion
    (QRDemo.handleBarcode "0xABC1" tt tt QRDemo.book (Some QRDemo.tx) false None)
    = QR.Returned tt.
Proof.
  assert (Hin :
    In (QR.Replace QR.SendConfirmation (QR.ConfirmationParams QRDemo.tx true))
       (QR.effects
          (QRDemo.handleBarcode "0xABC1" tt tt QRDemo.book (Some QRDemo.tx) false None)))
    by (right; right; left; reflexivity).
  split; [ exact Hin | ].
  exact (proj1 (proj2 (proj2
    (QRFacts.secure_scan_navigation QR.lower QRDemo.message string QRDemo.JSON_parse
       QRDemo.qrDataFromJson unit unit QRDemo.getRecipientFromAddress
       "0xABC1" tt tt QRDemo.book QRDemo.tx false None _ _ Hin)))).
Defined.

(** A timestamp inside the window now was inside it a second ago. *)
Lemma hasValidTimestamp_decays_witness :
  5000 <= 6000 /\
  InputValidation.hasValidTimestamp 1000 6000
    [("timestamp"%string, InputValidation.JsNum (InputValidation.Num 5500))] = true /\
  InputValidation.hasValidTimestamp 1000 5000
    [("timestamp"%string, InputValidation.JsNum (InputValidation.Num 5500))] = true.
Proof.
  assert (Hle : 5000 <= 6000) by discriminate.
  assert (Hv : InputValidation.hasValidTimestamp 1000 6000
    [("timestamp"%string, InputValidation.JsNum (InputValidation.Num 5500))] = true)
    by reflexivity.
  split; [ exact Hle | split; [ exact Hv | ] ].
  exact (RequestParamsFacts.hasValidTimestamp_decays 1000 5000 6000 _ Hle Hv).
Defined.

(** A timestamp sent in quotes is rejected, however fresh. *)
Lemma hasValidTimestamp_not_a_number_witness :
  InputValidation.is_number
    (InputValidation.get_field "timestamp"
       [("timestamp"%string, InputValidation.JsString "5500")]) = false /\
  InputValidation.hasValidTimestamp 1000 5000
    [("timestamp"%string, InputValidation.JsString "5500")] = false.
Proof.
  assert (H : InputValidation.is_number
    (InputValidation.get_field "timestamp"
       [("timestamp"%string, InputValidation.JsString "5500")]) = false) by reflexivity.
  split; [ exact H | ].
  exact (RequestParamsFacts.hasValidTimestamp_not_a_number 1000 5000 _ H).
Defined.
